(** * LIFU transmitter firmware: flash-backed configuration store

    A shallow embedding of [Core/Src/flash_eeprom.c] and
    [Core/Src/lifu_config.c] (with [Core/Inc/lifu_config.h]), and the
    properties of the configuration store checked against it.

    Conventions.
    - C unsigned integers are [Z] values; every place where the C code can
      wrap is written with an explicit [mod].
    - Bytes are [Z] values in [0, 256); buffers are [list Z].
    - The target is a little-endian Cortex-M4 (STM32L443), so the object
      representation of a multi-byte field is its little-endian image.
    - The two file-scope objects of [lifu_config.c] and the flash peripheral
      are threaded explicitly through every function as a [world]. *)

From Stdlib Require Import ZArith List Bool Lia.
Import ListNotations.
Local Open Scope Z_scope.

(* ------------------------------------------------------------------ *)
(** * Machine integers and object representations *)

Definition u16 (x : Z) : Z := x mod 2 ^ 16.
Definition u32 (x : Z) : Z := x mod 2 ^ 32.

(** Byte [i] of the little-endian image of [x]. *)
Definition byte_of (x : Z) (i : Z) : Z := (x / 2 ^ (8 * i)) mod 256.

Definition le16 (x : Z) : list Z := [byte_of x 0; byte_of x 1].
Definition le32 (x : Z) : list Z :=
  [byte_of x 0; byte_of x 1; byte_of x 2; byte_of x 3].
(** The integer whose little-endian image is [bs]. *)
Fixpoint of_le (bs : list Z) : Z :=
  match bs with
  | [] => 0
  | b :: bs' => b + 256 * of_le bs'
  end.

(** The [n] consecutive addresses starting at [a]. *)
Definition addresses (a : Z) (n : nat) : list Z :=
  map (fun i => a + Z.of_nat i) (List.seq 0 n).

(** [buf[i] = v] on an array held as a list (nothing happens out of range;
    the C code never indexes out of range). *)
Fixpoint store (l : list Z) (i : nat) (v : Z) : list Z :=
  match l, i with
  | [], _ => []
  | _ :: l', O => v :: l'
  | x :: l', S i' => x :: store l' i' v
  end.

(** [memset(&buf[off], v, n)]. *)
Definition memset (l : list Z) (off : nat) (v : Z) (n : nat) : list Z :=
  firstn off l ++ repeat v n ++ skipn (off + n) l.

(** [memcpy(dst, src, n)]: the first [n] bytes of [dst] are replaced by the
    first [n] bytes of [src]. *)
Definition memcpy (dst src : list Z) (n : nat) : list Z :=
  firstn n src ++ skipn n dst.

(** [strnlen(s, maxlen)]. *)
Fixpoint strnlen (s : list Z) (maxlen : nat) : nat :=
  match maxlen, s with
  | S m, c :: s' => if c =? 0 then O else S (strnlen s' m)
  | _, _ => O
  end.

(** [memchr(s, c, n) != NULL]. *)
Definition memchr_found (s : list Z) (c : Z) (n : nat) : bool :=
  existsb (Z.eqb c) (firstn n s).

(* ------------------------------------------------------------------ *)
(** * The HAL and the flash peripheral

    The STM32 HAL is vendor code outside this repository.  It is modelled
    as an environment: the memory-mapped flash contents, a script that
    fixes the status each fallible HAL call will report (an exhausted script
    reports [HAL_OK]), and a log of the operations performed, most recent
    first.  A call that reports a failure is taken to leave the flash
    contents as they were; nothing proved below depends on what a failed
    erase or program does to them. *)

Inductive HAL_StatusTypeDef : Type :=
| HAL_OK
| HAL_ERROR
| HAL_BUSY
| HAL_TIMEOUT.

Definition status_eqb (a b : HAL_StatusTypeDef) : bool :=
  match a, b with
  | HAL_OK, HAL_OK | HAL_ERROR, HAL_ERROR
  | HAL_BUSY, HAL_BUSY | HAL_TIMEOUT, HAL_TIMEOUT => true
  | _, _ => false
  end.

Inductive flash_event : Type :=
| EvUnlock
| EvLock
| EvClearErrors
| EvErase (bank page nbpages : Z)
| EvProgram (addr dw : Z)
| EvRead (addr size : Z).

Record hw_t : Type := mkHw {
  flash  : Z -> Z;                    (* byte at each address *)
  script : list HAL_StatusTypeDef;    (* statuses of the HAL calls to come *)
  trace  : list flash_event           (* operations so far, newest first *)
}.

(** Device constants of the STM32L443 (256 KB of flash in one bank of 2 KB
    pages), from the device header the sources include. *)
Definition FLASH_BASE      : Z := 0x08000000.
Definition FLASH_PAGE_SIZE : Z := 0x800.
Definition FLASH_BANK_SIZE : Z := 0x40000.
Definition FLASH_BANK_1    : Z := 1.
Definition FLASH_BANK_2    : Z := 2.

Definition next_status (hw : hw_t) : HAL_StatusTypeDef * list HAL_StatusTypeDef :=
  match script hw with
  | [] => (HAL_OK, [])
  | s :: rest => (s, rest)
  end.

Definition log (e : flash_event) (hw : hw_t) : hw_t :=
  mkHw (flash hw) (script hw) (e :: trace hw).

Definition HAL_FLASH_Unlock (hw : hw_t) : HAL_StatusTypeDef * hw_t :=
  let (st, rest) := next_status hw in
  (st, mkHw (flash hw) rest (EvUnlock :: trace hw)).

Definition HAL_FLASH_Lock (hw : hw_t) : hw_t := log EvLock hw.

Definition Flash_ClearErrors (hw : hw_t) : hw_t := log EvClearErrors hw.

(** A page erase that succeeds leaves every byte of the pages at 0xFF. *)
Definition erased (page nbpages : Z) (f : Z -> Z) : Z -> Z :=
  fun a =>
    if (FLASH_BASE + page * FLASH_PAGE_SIZE <=? a)
       && (a <? FLASH_BASE + (page + nbpages) * FLASH_PAGE_SIZE)
    then 0xFF else f a.

Definition HAL_FLASHEx_Erase (bank page nbpages : Z) (hw : hw_t)
  : HAL_StatusTypeDef * hw_t :=
  let (st, rest) := next_status hw in
  let f := match st with
           | HAL_OK => erased page nbpages (flash hw)
           | _ => flash hw
           end in
  (st, mkHw f rest (EvErase bank page nbpages :: trace hw)).

(** A doubleword program that succeeds can only clear bits (NOR flash): each
    of the eight bytes becomes the bitwise AND of its old value and the
    programmed one. *)
Definition programmed (addr dw : Z) (f : Z -> Z) : Z -> Z :=
  fun a =>
    if (addr <=? a) && (a <? addr + 8)
    then Z.land (f a) (byte_of dw (a - addr)) else f a.

Definition HAL_FLASH_Program (addr dw : Z) (hw : hw_t)
  : HAL_StatusTypeDef * hw_t :=
  let (st, rest) := next_status hw in
  let f := match st with
           | HAL_OK => programmed addr dw (flash hw)
           | _ => flash hw
           end in
  (st, mkHw f rest (EvProgram addr dw :: trace hw)).

(** [*(uint64_t * )addr]. *)
Definition read64 (hw : hw_t) (addr : Z) : Z :=
  of_le (map (flash hw) (addresses addr 8)).

(* ------------------------------------------------------------------ *)
(** * flash_eeprom.c *)

Definition GetPage (Addr : Z) : Z :=
  if Addr <? FLASH_BASE + FLASH_BANK_SIZE
  then u32 (Addr - FLASH_BASE) / FLASH_PAGE_SIZE
  else u32 (Addr - (FLASH_BASE + FLASH_BANK_SIZE)) / FLASH_PAGE_SIZE.

(** The device header of the STM32L443 does not define [FLASH_OPTR_DBANK],
    so the [#else] branch is the one compiled. *)
Definition GetBank (Addr : Z) : Z := FLASH_BANK_1.

Definition Flash_Erase (start_address end_address_exclusive : Z) (hw : hw_t)
  : HAL_StatusTypeDef * hw_t :=
  if end_address_exclusive <=? start_address then (HAL_ERROR, hw)
  else
    let (st, hw1) := HAL_FLASH_Unlock hw in
    if negb (status_eqb st HAL_OK) then (st, hw1)
    else
      let hw2 := Flash_ClearErrors hw1 in
      let page_first := GetPage start_address in
      let page_last := GetPage (u32 (end_address_exclusive - 1)) in
      let pages := u32 (u32 (page_last - page_first) + 1) in
      let (st', hw3) :=
        HAL_FLASHEx_Erase (GetBank start_address) page_first pages hw2 in
      (st', HAL_FLASH_Lock hw3).

Definition Flash_Read (address : Z) (size_bytes : Z) (hw : hw_t)
  : HAL_StatusTypeDef * list Z * hw_t :=
  (HAL_OK,
   map (flash hw) (addresses address (Z.to_nat size_bytes)),
   log (EvRead address size_bytes) hw).

(** The [while (size_bytes >= 8U)] loop of [Flash_Write].  It runs
    [size_bytes / 8] times, so it is written by recursion on that count:
    [inl] is an early [return] from inside the loop, [inr] carries [p],
    [addr] and the peripheral state to the code after the loop. *)
Fixpoint Flash_Write_loop (chunks : nat) (p : list Z) (addr : Z) (hw : hw_t)
  : (HAL_StatusTypeDef * hw_t) + (list Z * Z * hw_t) :=
  match chunks with
  | O => inr (p, addr, hw)
  | S k =>
      let dw := of_le (firstn 8 p) in
      let (st, hw1) := HAL_FLASH_Program addr dw hw in
      if negb (status_eqb st HAL_OK) then inl (st, HAL_FLASH_Lock hw1)
      else if negb (read64 hw1 addr =? dw) then inl (HAL_ERROR, HAL_FLASH_Lock hw1)
      else Flash_Write_loop k (skipn 8 p) (u32 (addr + 8)) hw1
  end.

Definition Flash_Write (address : Z) (src : list Z) (size_bytes : Z) (hw : hw_t)
  : HAL_StatusTypeDef * hw_t :=
  if size_bytes =? 0 then (HAL_OK, hw)
  else if negb (Z.land address 0x7 =? 0) then (HAL_ERROR, hw)
  else
    let (st, hw1) := HAL_FLASH_Unlock hw in
    if negb (status_eqb st HAL_OK) then (st, hw1)
    else
      let hw2 := Flash_ClearErrors hw1 in
      match Flash_Write_loop (Z.to_nat (size_bytes / 8)) src address hw2 with
      | inl early => early
      | inr (p, addr, hw3) =>
          let tail := size_bytes mod 8 in
          if 0 <? tail then
            let tmp := memcpy (repeat 0xFF 8) p (Z.to_nat tail) in
            let dw := of_le tmp in
            let (st', hw4) := HAL_FLASH_Program addr dw hw3 in
            if negb (status_eqb st' HAL_OK) then (st', HAL_FLASH_Lock hw4)
            else if negb (read64 hw4 addr =? dw) then (HAL_ERROR, HAL_FLASH_Lock hw4)
            else (HAL_OK, HAL_FLASH_Lock hw4)
          else (HAL_OK, HAL_FLASH_Lock hw3)
      end.

(* ------------------------------------------------------------------ *)
(** * lifu_config.h *)

Definition LIFU_MAGIC : Z := 0x4C494655.
Definition LIFU_VER   : Z := 0x00010002.

Definition LIFU_CFG_PAGE_SIZE   : Z := 2048.
Definition LIFU_CFG_HEADER_SIZE : Z := 4 * 4.
Definition LIFU_CFG_JSON_MAX    : Z := LIFU_CFG_PAGE_SIZE - LIFU_CFG_HEADER_SIZE.

(** Modelled from the spec: [memory_map.h] is not among the sources.  The
    header places the record in "one 2KB page at 0x0803F800", the last page
    of the device, and erases up to the end-of-flash address;
    [erase_range_one_page] below shows that any end address inside that page
    selects the same single page. *)
Definition ADDR_FLASH_PAGE_127    : Z := 0x0803F800.
Definition ADDR_FLASH_END_ADDRESS : Z := 0x0803FFFF.

Definition LIFU_CFG_PAGE_ADDR : Z := ADDR_FLASH_PAGE_127.
Definition LIFU_CFG_PAGE_END  : Z := ADDR_FLASH_END_ADDRESS.

(** [lifu_cfg_t].  The header declares [magic], [version], [seq], [crc],
    [reserved] and [json], packed, filling the page exactly (its
    [_Static_assert]).  [lifu_config.c] also reads and writes [hv_settng],
    [hv_enabled] and [auto_on], which the header does not declare: they are
    carried as fields of the object, copied and cleared with it, but have no
    position in the 2048-byte image the header lays out. *)
Record lifu_cfg_t : Type := mkCfg {
  magic      : Z;        (* uint32_t *)
  version    : Z;        (* uint32_t *)
  seq        : Z;        (* uint32_t *)
  crc        : Z;        (* uint16_t *)
  reserved   : Z;        (* uint16_t *)
  hv_settng  : Z;
  hv_enabled : Z;
  auto_on    : Z;
  json       : list Z    (* char json[LIFU_CFG_JSON_MAX] *)
}.

Definition sizeof_lifu_cfg_t : Z := LIFU_CFG_PAGE_SIZE.
Definition offsetof_crc      : Z := 12.

Definition set_magic (g : lifu_cfg_t) (v : Z) : lifu_cfg_t :=
  mkCfg v (version g) (seq g) (crc g) (reserved g)
        (hv_settng g) (hv_enabled g) (auto_on g) (json g).
Definition set_version (g : lifu_cfg_t) (v : Z) : lifu_cfg_t :=
  mkCfg (magic g) v (seq g) (crc g) (reserved g)
        (hv_settng g) (hv_enabled g) (auto_on g) (json g).
Definition set_seq (g : lifu_cfg_t) (v : Z) : lifu_cfg_t :=
  mkCfg (magic g) (version g) v (crc g) (reserved g)
        (hv_settng g) (hv_enabled g) (auto_on g) (json g).
Definition set_crc (g : lifu_cfg_t) (v : Z) : lifu_cfg_t :=
  mkCfg (magic g) (version g) (seq g) v (reserved g)
        (hv_settng g) (hv_enabled g) (auto_on g) (json g).
Definition set_hv_settng (g : lifu_cfg_t) (v : Z) : lifu_cfg_t :=
  mkCfg (magic g) (version g) (seq g) (crc g) (reserved g)
        v (hv_enabled g) (auto_on g) (json g).
Definition set_hv_enabled (g : lifu_cfg_t) (v : Z) : lifu_cfg_t :=
  mkCfg (magic g) (version g) (seq g) (crc g) (reserved g)
        (hv_settng g) v (auto_on g) (json g).
Definition set_auto_on (g : lifu_cfg_t) (v : Z) : lifu_cfg_t :=
  mkCfg (magic g) (version g) (seq g) (crc g) (reserved g)
        (hv_settng g) (hv_enabled g) v (json g).
Definition set_json (g : lifu_cfg_t) (j : list Z) : lifu_cfg_t :=
  mkCfg (magic g) (version g) (seq g) (crc g) (reserved g)
        (hv_settng g) (hv_enabled g) (auto_on g) j.

(** The object representation: what [(const uint8_t * )cfg] points to. *)
Definition cfg_bytes (g : lifu_cfg_t) : list Z :=
  le32 (magic g) ++ le32 (version g) ++ le32 (seq g)
  ++ le16 (crc g) ++ le16 (reserved g) ++ json g.

(** The object whose representation is [img]; the fields without a place
    in the image keep the value they have in [old]. *)
Definition cfg_of_bytes (img : list Z) (old : lifu_cfg_t) : lifu_cfg_t :=
  mkCfg (of_le (firstn 4 img))
        (of_le (firstn 4 (skipn 4 img)))
        (of_le (firstn 4 (skipn 8 img)))
        (of_le (firstn 2 (skipn 12 img)))
        (of_le (firstn 2 (skipn 14 img)))
        (hv_settng old) (hv_enabled old) (auto_on old)
        (skipn 16 img).

(** [memset(dst, 0, sizeof(lifu_cfg_t))]. *)
Definition cfg_zero : lifu_cfg_t :=
  mkCfg 0 0 0 0 0 0 0 0 (repeat 0 (Z.to_nat LIFU_CFG_JSON_MAX)).

(* ------------------------------------------------------------------ *)
(** * lifu_config.c *)

Definition crc16_round (crc : Z) : Z :=
  if negb (Z.land crc 0x8000 =? 0)
  then u16 (Z.lxor (Z.shiftl crc 1) 0x1021)
  else u16 (Z.shiftl crc 1).

Definition crc16_byte (crc : Z) (d : Z) : Z :=
  let crc := u16 (Z.lxor crc (Z.shiftl d 8)) in
  Nat.iter 8 crc16_round crc.

(** CRC-16/CCITT-FALSE: poly=0x1021, init=0xFFFF, no final XOR. *)
Definition crc16_ccitt (data : list Z) : Z :=
  fold_left crc16_byte data 0xFFFF.

(** compute CRC across everything BEFORE the crc field *)
Definition lifu_cfg_calc_crc (cfg : lifu_cfg_t) : Z :=
  crc16_ccitt (firstn (Z.to_nat offsetof_crc) (cfg_bytes cfg)).

Definition lifu_cfg_normalize_json (cfg : lifu_cfg_t) : lifu_cfg_t :=
  let cap := Z.to_nat LIFU_CFG_JSON_MAX in
  let j := store (json cfg) (cap - 1) 0 in
  let used := strnlen j cap in
  if (used <? cap - 1)%nat
  then set_json cfg (memset j (used + 1) 0 ((cap - 1) - used))
  else set_json cfg j.

Definition lifu_cfg_make_defaults (dst : lifu_cfg_t) : lifu_cfg_t :=
  let dst := cfg_zero in
  let dst := set_magic dst LIFU_MAGIC in
  let dst := set_version dst LIFU_VER in
  let dst := set_seq dst 0 in
  let dst := set_hv_settng dst 0 in
  let dst := set_hv_enabled dst 0 in
  let dst := set_auto_on dst 0 in
  let dst := set_json dst (store (json dst) 0 0) in
  let dst :=
    if 1 <? LIFU_CFG_JSON_MAX
    then set_json dst (memset (json dst) 1 0 (Z.to_nat (LIFU_CFG_JSON_MAX - 1)))
    else dst in
  let dst := lifu_cfg_normalize_json dst in
  set_crc dst (lifu_cfg_calc_crc dst).

Definition lifu_cfg_is_valid (cfg : lifu_cfg_t) : bool :=
  if negb (magic cfg =? LIFU_MAGIC) then false
  else if negb (version cfg =? LIFU_VER) then false
  else if negb (memchr_found (json cfg) 0 (Z.to_nat LIFU_CFG_JSON_MAX)) then false
  else
    let calc := lifu_cfg_calc_crc cfg in
    if negb (calc =? crc cfg) then false
    else true.

(** The file-scope state of [lifu_config.c] together with the peripheral. *)
Record world : Type := mkWorld {
  g_cfg        : lifu_cfg_t;
  g_cfg_loaded : bool;
  hw           : hw_t
}.

(** State at reset: the statics are zero-initialised. *)
Definition boot (h : hw_t) : world := mkWorld cfg_zero false h.

Definition lifu_cfg_writeback (w : world) : HAL_StatusTypeDef * world :=
  let g := g_cfg w in
  let g := set_seq g (u32 (seq g + 1)) in
  let g := lifu_cfg_normalize_json g in
  let g := set_crc g (lifu_cfg_calc_crc g) in
  let (st, hw1) := Flash_Erase LIFU_CFG_PAGE_ADDR LIFU_CFG_PAGE_END (hw w) in
  if negb (status_eqb st HAL_OK) then (st, mkWorld g (g_cfg_loaded w) hw1)
  else
    let (st', hw2) :=
      Flash_Write LIFU_CFG_PAGE_ADDR (cfg_bytes g) (sizeof_lifu_cfg_t / 4) hw1 in
    (st', mkWorld g (g_cfg_loaded w) hw2).

Definition lifu_cfg_load_raw (w : world) : world :=
  let '(_, buf, hw1) :=
    Flash_Read LIFU_CFG_PAGE_ADDR (sizeof_lifu_cfg_t / 4) (hw w) in
  let img := memcpy (cfg_bytes (g_cfg w)) buf (Z.to_nat (sizeof_lifu_cfg_t / 4)) in
  mkWorld (cfg_of_bytes img (g_cfg w)) (g_cfg_loaded w) hw1.

Definition lifu_cfg_ensure_loaded (w : world) : world :=
  if g_cfg_loaded w then w
  else
    let w1 := lifu_cfg_load_raw w in
    let w2 :=
      if negb (lifu_cfg_is_valid (g_cfg w1)) then
        let w1' := mkWorld (lifu_cfg_make_defaults (g_cfg w1))
                           (g_cfg_loaded w1) (hw w1) in
        snd (lifu_cfg_writeback w1')
      else w1 in
    mkWorld (g_cfg w2) true (hw w2).

(** [lifu_cfg_get] returns [&g_cfg]; the model returns what that pointer
    designates when the call returns. *)
Definition lifu_cfg_get (w : world) : lifu_cfg_t * world :=
  let w1 := lifu_cfg_ensure_loaded w in
  (g_cfg w1, w1).

(** The destination is [None] for a null pointer; the second component is
    the destination object after the call. *)
Definition lifu_cfg_snapshot (out : option lifu_cfg_t) (w : world)
  : HAL_StatusTypeDef * option lifu_cfg_t * world :=
  match out with
  | None => (HAL_ERROR, None, w)
  | Some _ =>
      let w1 := lifu_cfg_ensure_loaded w in
      (HAL_OK, Some (g_cfg w1), w1)
  end.

Definition lifu_cfg_save (new_cfg : lifu_cfg_t) (w : world)
  : HAL_StatusTypeDef * world :=
  let w1 := lifu_cfg_ensure_loaded w in
  let g := g_cfg w1 in
  let g := set_magic g LIFU_MAGIC in
  let g := set_version g LIFU_VER in
  let g := set_hv_settng g (hv_settng new_cfg) in
  let g := set_hv_enabled g (hv_enabled new_cfg) in
  let g := set_auto_on g (auto_on new_cfg) in
  let g := set_json g (memcpy (json g) (json new_cfg)
                              (Z.to_nat LIFU_CFG_JSON_MAX)) in
  let g := set_json g (store (json g) (Z.to_nat (LIFU_CFG_JSON_MAX - 1)) 0) in
  lifu_cfg_writeback (mkWorld g (g_cfg_loaded w1) (hw w1)).

Definition lifu_cfg_commit (w : world) : HAL_StatusTypeDef * world :=
  let w1 := lifu_cfg_ensure_loaded w in
  lifu_cfg_writeback w1.

Definition lifu_cfg_factory_reset (w : world) : HAL_StatusTypeDef * world :=
  let w1 := lifu_cfg_ensure_loaded w in
  lifu_cfg_writeback
    (mkWorld (lifu_cfg_make_defaults (g_cfg w1)) (g_cfg_loaded w1) (hw w1)).

(** ** Sequences of public operations *)

Inductive store_op : Type :=
| OpGet
| OpSnapshot (out : option lifu_cfg_t)
| OpSave (new_cfg : lifu_cfg_t)
| OpCommit
| OpFactoryReset.

Definition run_op (op : store_op) (w : world) : world :=
  match op with
  | OpGet => snd (lifu_cfg_get w)
  | OpSnapshot out => snd (lifu_cfg_snapshot out w)
  | OpSave c => snd (lifu_cfg_save c w)
  | OpCommit => snd (lifu_cfg_commit w)
  | OpFactoryReset => snd (lifu_cfg_factory_reset w)
  end.

Definition run_ops (ops : list store_op) (w : world) : world :=
  fold_left (fun w op => run_op op w) ops w.

(** ** Concrete peripherals and payloads used in the examples *)

(** Flash as it leaves the factory: every byte erased, no HAL failure. *)
Definition hw_blank : hw_t := mkHw (fun _ => 0xFF) [] [].

(** A payload buffer holding [text] followed by zeros. *)
Definition payload (text : list Z) : list Z :=
  text ++ repeat 0 (Z.to_nat LIFU_CFG_JSON_MAX - length text).

(** The bytes of the record page as they are in flash. *)
Definition page_bytes (h : hw_t) : list Z :=
  map (flash h) (addresses LIFU_CFG_PAGE_ADDR (Z.to_nat LIFU_CFG_PAGE_SIZE)).

(* ------------------------------------------------------------------ *)
(** * Vocabulary of the statements *)

(** The payload [lifu_cfg_normalize_json] leaves, as a function of the
    payload it finds. *)
Definition normalized (j0 : list Z) : list Z :=
  let cap := Z.to_nat LIFU_CFG_JSON_MAX in
  let j := store j0 (cap - 1) 0 in
  let used := strnlen j cap in
  if (used <? cap - 1)%nat
  then memset j (used + 1) 0 ((cap - 1) - used)
  else j.

(** The record [lifu_cfg_writeback] leaves in [g_cfg]. *)
Definition written (g : lifu_cfg_t) : lifu_cfg_t :=
  let g := set_seq g (u32 (seq g + 1)) in
  let g := lifu_cfg_normalize_json g in
  set_crc g (lifu_cfg_calc_crc g).

(** The defaults are one fixed record. *)
Definition default_cfg : lifu_cfg_t :=
  mkCfg LIFU_MAGIC LIFU_VER 0
        (crc16_ccitt (le32 LIFU_MAGIC ++ le32 LIFU_VER ++ le32 0))
        0 0 0 0
        (repeat 0 (Z.to_nat LIFU_CFG_JSON_MAX)).

(** The state the cache is in between two public calls: the payload array
    has its declared size, and once loaded the record is valid. *)
Definition cache_ok (w : world) : Prop :=
  length (json (g_cfg w)) = Z.to_nat LIFU_CFG_JSON_MAX
  /\ (g_cfg_loaded w = true -> lifu_cfg_is_valid (g_cfg w) = true).

(** The state every public call leaves. *)
Definition cache_loaded_valid (w : world) : Prop :=
  g_cfg_loaded w = true
  /\ length (json (g_cfg w)) = Z.to_nat LIFU_CFG_JSON_MAX
  /\ lifu_cfg_is_valid (g_cfg w) = true.

(** A candidate handed to [lifu_cfg_save] is a [lifu_cfg_t] object, so its
    payload array has [LIFU_CFG_JSON_MAX] bytes. *)
Definition op_wf (op : store_op) : Prop :=
  match op with
  | OpSave c => length (json c) = Z.to_nat LIFU_CFG_JSON_MAX
  | _ => True
  end.

(** Every public call runs the lazy load, except a snapshot into a null
    destination, which returns at its argument check. *)
Definition loads (op : store_op) : bool :=
  match op with
  | OpSnapshot None => false
  | _ => true
  end.

Definition save_or_commit (op : store_op) : Prop :=
  match op with
  | OpSave _ | OpCommit => True
  | _ => False
  end.

(** A candidate as a caller would build it: wrong [magic], [version], [seq]
    and [crc], application fields set, and a payload that still carries old
    bytes after its terminating NUL. *)
Definition stale_candidate : lifu_cfg_t :=
  mkCfg 0xDEADBEEF 7 99 0x1234 0 120 1 1 (payload [65; 0; 66; 67]).

(** A peripheral whose first write-backs fail in three different places:
    at the unlock, at the erase, and at a doubleword program. *)
Definition hw_failing : hw_t :=
  mkHw (fun _ => 0xFF)
       [HAL_ERROR; HAL_OK; HAL_TIMEOUT; HAL_OK; HAL_OK; HAL_OK; HAL_BUSY]
       [].

(** The defaults as write-back leaves them: [seq] bumped from 0 to 1 and
    [crc] recomputed over the new header. *)
Definition recovered_cfg : lifu_cfg_t :=
  mkCfg LIFU_MAGIC LIFU_VER 1
        (crc16_ccitt (le32 LIFU_MAGIC ++ le32 LIFU_VER ++ le32 1))
        0 0 0 0
        (repeat 0 (Z.to_nat LIFU_CFG_JSON_MAX)).

(** The record a page of flash holds, read over a zeroed object. *)
Definition page_record (h : hw_t) : lifu_cfg_t :=
  cfg_of_bytes (page_bytes h) cfg_zero.

(** A page holding the valid record of an earlier save, with the first
    byte of its [magic] field then overwritten. *)
Definition hw_corrupt_magic : hw_t :=
  let h := hw (snd (lifu_cfg_save stale_candidate (boot hw_blank))) in
  mkHw (fun a => if a =? LIFU_CFG_PAGE_ADDR then 0 else flash h a) [] [].

(** The bytes a checksum over "header and payload" would read: the fields
    before [crc] followed by the payload, without and with [reserved]. *)
Definition header_and_payload (g : lifu_cfg_t) : list Z :=
  le32 (magic g) ++ le32 (version g) ++ le32 (seq g) ++ json g.

Definition all_but_crc (g : lifu_cfg_t) : list Z :=
  le32 (magic g) ++ le32 (version g) ++ le32 (seq g)
  ++ le16 (reserved g) ++ json g.

(** A candidate whose payload text is 1000 bytes long. *)
Definition long_candidate : lifu_cfg_t :=
  mkCfg LIFU_MAGIC LIFU_VER 0 0 0 0 0 0 (payload (repeat 65 1000)).

Definition is_program (e : flash_event) : bool :=
  match e with
  | EvProgram _ _ => true
  | _ => false
  end.

(** No HAL call that is still to come reports a failure. *)
Definition no_failure (h : hw_t) : Prop :=
  Forall (fun s => s = HAL_OK) (script h).

(** The first address of a flash page, by page number. *)
Definition page_start (page : Z) : Z := FLASH_BASE + page * FLASH_PAGE_SIZE.

(** Some erase, or some program, is in the log. *)
Definition is_erase (e : flash_event) : bool :=
  match e with
  | EvErase _ _ _ => true
  | _ => false
  end.

Definition is_byte (b : Z) : Prop := 0 <= b < 256.

(** [size] rounded up to the 8-byte program granularity. *)
Definition round_up8 (size : Z) : Z := 8 * ((size + 7) / 8).

(** The 16-bit state [crc16_round] came from. *)
Definition crc16_unround (y : Z) : Z :=
  if Z.odd y then Z.shiftr (Z.lxor y 0x1021) 1 + 0x8000 else Z.shiftr y 1.

(** [crc16_unround] undoes [crc16_round] on the [n] states from [c] on. *)
Fixpoint unround_from (n : nat) (c : Z) : bool :=
  match n with
  | O => true
  | S m => (crc16_unround (crc16_round c) =? c) && unround_from m (c + 1)
  end.

(** The record a restart reads from a page holding the image of [g]: the
    fields the header lays out are those of [g], the others are those of
    the zero-initialised object the page is read into. *)
Definition reloaded (g : lifu_cfg_t) : lifu_cfg_t :=
  mkCfg (magic g) (version g) (seq g) (crc g) (reserved g) 0 0 0 (json g).

(** Decidable form of "every element is a byte". *)
Definition all_bytes (l : list Z) : bool :=
  forallb (fun b => (0 <=? b) && (b <? 256)) l.

(** From the state [c], the two bytes of [c] itself, high byte first,
    bring a checksum whose step is [f] to zero. *)
Definition residue_ok (f : Z -> Z -> Z) (c : Z) : bool :=
  f (f c (c / 256)) (c mod 256) =? 0.

(** [P] holds of each of the [n] integers from [c] on. *)
Fixpoint all_from (P : Z -> bool) (n : nat) (c : Z) : bool :=
  match n with
  | O => true
  | S m => P c && all_from P m (c + 1)
  end.

(** The cache after a first [lifu_cfg_get] on blank flash, with its
    [magic] then overwritten in place through the pointer that call
    returned. *)
Definition world_edited_magic : world :=
  let w := snd (lifu_cfg_get (boot hw_blank)) in
  mkWorld (set_magic (g_cfg w) 0) (g_cfg_loaded w) (hw w).

(* ------------------------------------------------------------------ *)
(** * Basic facts about the helpers *)

Lemma status_eqb_eq (a b : HAL_StatusTypeDef) : status_eqb a b = true <-> a = b.
Proof. destruct a, b; simpl; split; congruence. Qed.

Lemma store_length (l : list Z) (i : nat) (v : Z) :
  length (store l i v) = length l.
Proof.
  revert i; induction l as [|x l IH]; intros [|i]; simpl; auto.
Qed.

Lemma store_nth_same (l : list Z) (i : nat) (v : Z) :
  (i < length l)%nat -> nth_error (store l i v) i = Some v.
Proof.
  revert i; induction l as [|x l IH]; intros [|i] H; simpl in *; try lia; auto.
  apply IH; lia.
Qed.

Lemma store_nth_other (l : list Z) (i k : nat) (v : Z) :
  k <> i -> nth_error (store l i v) k = nth_error l k.
Proof.
  revert i k; induction l as [|x l IH]; intros [|i] [|k] H; simpl; auto.
  congruence.
Qed.

Lemma memset_length (l : list Z) (off n : nat) (v : Z) :
  (off + n <= length l)%nat -> length (memset l off v n) = length l.
Proof.
  intros H. unfold memset.
  rewrite !length_app, repeat_length, length_firstn, length_skipn. lia.
Qed.

Lemma memset_nth_before (l : list Z) (off n k : nat) (v : Z) :
  (k < off)%nat -> (off <= length l)%nat ->
  nth_error (memset l off v n) k = nth_error l k.
Proof.
  intros Hk Hoff. unfold memset.
  rewrite nth_error_app1 by (rewrite length_firstn; lia).
  rewrite nth_error_firstn.
  destruct (Nat.ltb_spec k off); [reflexivity | lia].
Qed.

Lemma memcpy_length (dst src : list Z) (n : nat) :
  (n <= length src)%nat -> (n <= length dst)%nat ->
  length (memcpy dst src n) = length dst.
Proof.
  intros Hs Hd. unfold memcpy.
  rewrite length_app, length_firstn, length_skipn. lia.
Qed.

(** [memchr] finds the byte exactly when it occurs at an index below [n]. *)
Lemma memchr_found_iff (s : list Z) (c : Z) (n : nat) :
  memchr_found s c n = true <->
  exists i, (i < n)%nat /\ nth_error s i = Some c.
Proof.
  unfold memchr_found. revert s.
  induction n as [|n IH]; intros s.
  - simpl. split; [discriminate | intros [i [H _]]; lia].
  - destruct s as [|x s]; simpl.
    + split; [discriminate | intros [[|i] [_ H]]; discriminate].
    + rewrite orb_true_iff, IH. split.
      * intros [H | [i [Hi H]]].
        -- apply Z.eqb_eq in H. subst. exists O. split; [lia | reflexivity].
        -- exists (S i). split; [lia | exact H].
      * intros [[|i] [Hi H]]; simpl in H.
        -- left. injection H as ->. apply Z.eqb_refl.
        -- right. exists i. split; [lia | exact H].
Qed.

(** [strnlen] stops at the first NUL below [maxlen]. *)
Lemma strnlen_le (s : list Z) (n : nat) : (strnlen s n <= n)%nat.
Proof.
  revert s; induction n as [|n IH]; intros [|c s]; simpl; try lia.
  destruct (c =? 0); [lia | specialize (IH s); lia].
Qed.

Lemma strnlen_nul (s : list Z) (n k : nat) :
  (k < n)%nat -> nth_error s k = Some 0 ->
  (strnlen s n <= k)%nat /\ nth_error s (strnlen s n) = Some 0.
Proof.
  revert s k; induction n as [|n IH]; intros s k Hk H; [lia|].
  destruct s as [|c s]; [destruct k; discriminate|].
  simpl. destruct (Z.eqb_spec c 0) as [->|Hc].
  - split; [lia | reflexivity].
  - destruct k as [|k]; simpl in H; [congruence|].
    destruct (IH s k ltac:(lia) H) as [H1 H2]. split; [lia | exact H2].
Qed.

(** The standard check value of CRC-16/CCITT-FALSE: the checksum of the
    ASCII digits "123456789" is 0x29B1. *)
Example crc16_ccitt_check_value :
  crc16_ccitt [49; 50; 51; 52; 53; 54; 55; 56; 57] = 0x29B1.
Proof. vm_compute. reflexivity. Qed.

(** The checksum reads the twelve bytes of [magic], [version] and [seq]. *)
Lemma calc_crc_header (cfg : lifu_cfg_t) :
  lifu_cfg_calc_crc cfg =
  crc16_ccitt (le32 (magic cfg) ++ le32 (version cfg) ++ le32 (seq cfg)).
Proof. reflexivity. Qed.

Lemma calc_crc_set_json (cfg : lifu_cfg_t) (j : list Z) :
  lifu_cfg_calc_crc (set_json cfg j) = lifu_cfg_calc_crc cfg.
Proof. rewrite !calc_crc_header. reflexivity. Qed.

Lemma calc_crc_set_crc (cfg : lifu_cfg_t) (c : Z) :
  lifu_cfg_calc_crc (set_crc cfg c) = lifu_cfg_calc_crc cfg.
Proof. rewrite !calc_crc_header. reflexivity. Qed.

(* ------------------------------------------------------------------ *)
(** * What write-back leaves in the cache *)

Lemma json_max_nat : Z.to_nat LIFU_CFG_JSON_MAX = 2032%nat.
Proof. reflexivity. Qed.

Lemma normalize_json_eq (cfg : lifu_cfg_t) :
  lifu_cfg_normalize_json cfg = set_json cfg (normalized (json cfg)).
Proof.
  unfold lifu_cfg_normalize_json, normalized. cbv zeta.
  destruct (_ <? _)%nat; reflexivity.
Qed.

(** After normalisation the payload has its full length and a NUL within
    it. *)
Lemma normalized_shape (j0 : list Z) :
  length j0 = Z.to_nat LIFU_CFG_JSON_MAX ->
  length (normalized j0) = Z.to_nat LIFU_CFG_JSON_MAX
  /\ memchr_found (normalized j0) 0 (Z.to_nat LIFU_CFG_JSON_MAX) = true.
Proof.
  unfold normalized.
  assert (Hpos : (0 < Z.to_nat LIFU_CFG_JSON_MAX)%nat)
    by (rewrite json_max_nat; lia).
  generalize dependent (Z.to_nat LIFU_CFG_JSON_MAX). intros cap Hpos Hlen.
  cbv zeta.
  set (j := store j0 (cap - 1) 0).
  assert (Hj : length j = cap) by (unfold j; rewrite store_length; exact Hlen).
  assert (Hlast : nth_error j (cap - 1) = Some 0)
    by (unfold j; apply store_nth_same; lia).
  destruct (strnlen_nul j cap (cap - 1) ltac:(lia) Hlast) as [Hle Hnul].
  destruct (Nat.ltb_spec (strnlen j cap) (cap - 1)) as [Hlt | Hge].
  - split.
    + rewrite memset_length; [exact Hj | lia].
    + apply memchr_found_iff. exists (strnlen j cap). split; [lia|].
      rewrite memset_nth_before; [exact Hnul | lia | lia].
  - split; [exact Hj|].
    apply memchr_found_iff. exists (cap - 1)%nat. split; [lia | exact Hlast].
Qed.

Lemma writeback_cfg (w : world) :
  g_cfg (snd (lifu_cfg_writeback w)) = written (g_cfg w).
Proof.
  unfold lifu_cfg_writeback, written. cbv zeta.
  destruct (Flash_Erase _ _ _) as [st hw1].
  destruct (negb (status_eqb st HAL_OK)); [reflexivity|].
  destruct (Flash_Write _ _ _ _) as [st' hw2]. reflexivity.
Qed.

Lemma writeback_loaded (w : world) :
  g_cfg_loaded (snd (lifu_cfg_writeback w)) = g_cfg_loaded w.
Proof.
  unfold lifu_cfg_writeback. cbv zeta.
  destruct (Flash_Erase _ _ _) as [st hw1].
  destruct (negb (status_eqb st HAL_OK)); [reflexivity|].
  destruct (Flash_Write _ _ _ _) as [st' hw2]. reflexivity.
Qed.

Lemma written_eq (g : lifu_cfg_t) :
  written g =
  mkCfg (magic g) (version g) (u32 (seq g + 1))
        (crc16_ccitt (le32 (magic g) ++ le32 (version g)
                      ++ le32 (u32 (seq g + 1))))
        (reserved g) (hv_settng g) (hv_enabled g) (auto_on g)
        (normalized (json g)).
Proof.
  unfold written. cbv zeta. rewrite normalize_json_eq, calc_crc_header.
  reflexivity.
Qed.

Lemma written_valid (g : lifu_cfg_t) :
  length (json g) = Z.to_nat LIFU_CFG_JSON_MAX ->
  magic g = LIFU_MAGIC -> version g = LIFU_VER ->
  lifu_cfg_is_valid (written g) = true.
Proof.
  intros Hlen Hm Hv.
  destruct (normalized_shape (json g) Hlen) as [_ Hnul].
  rewrite written_eq. unfold lifu_cfg_is_valid. cbv zeta.
  rewrite calc_crc_header. cbn [magic version seq crc json].
  rewrite Hm, Hv, !Z.eqb_refl, Hnul. reflexivity.
Qed.

Lemma written_length (g : lifu_cfg_t) :
  length (json g) = Z.to_nat LIFU_CFG_JSON_MAX ->
  length (json (written g)) = Z.to_nat LIFU_CFG_JSON_MAX.
Proof.
  intros Hlen. rewrite written_eq. cbn [json].
  apply normalized_shape, Hlen.
Qed.

Lemma make_defaults_eq (dst : lifu_cfg_t) :
  lifu_cfg_make_defaults dst = default_cfg.
Proof. vm_compute. reflexivity. Qed.

(* ------------------------------------------------------------------ *)
(** * The validity predicate *)

Lemma is_valid_iff (cfg : lifu_cfg_t) :
  lifu_cfg_is_valid cfg = true <->
  magic cfg = LIFU_MAGIC
  /\ version cfg = LIFU_VER
  /\ memchr_found (json cfg) 0 (Z.to_nat LIFU_CFG_JSON_MAX) = true
  /\ lifu_cfg_calc_crc cfg = crc cfg.
Proof.
  unfold lifu_cfg_is_valid. cbv zeta.
  destruct (Z.eqb_spec (magic cfg) LIFU_MAGIC) as [Hm | Hm]; cbn [negb];
    [| split; [discriminate | intros [H _]; contradiction]].
  destruct (Z.eqb_spec (version cfg) LIFU_VER) as [Hv | Hv]; cbn [negb];
    [| split; [discriminate | intros (_ & H & _); contradiction]].
  destruct (memchr_found (json cfg) 0 (Z.to_nat LIFU_CFG_JSON_MAX)); cbn [negb];
    [| split; [discriminate | intros (_ & _ & H & _); discriminate]].
  destruct (Z.eqb_spec (lifu_cfg_calc_crc cfg) (crc cfg)) as [Hc | Hc]; cbn [negb];
    [| split; [discriminate | intros (_ & _ & _ & H); contradiction]].
  split; auto.
Qed.

(* ------------------------------------------------------------------ *)
(** * The lazy load and the cache invariant *)

Lemma words_nat : Z.to_nat (sizeof_lifu_cfg_t / 4) = 512%nat.
Proof. reflexivity. Qed.

Lemma addresses_length (a : Z) (n : nat) : length (addresses a n) = n.
Proof. unfold addresses. rewrite length_map, length_seq. reflexivity. Qed.

Lemma cfg_bytes_length (g : lifu_cfg_t) :
  length (cfg_bytes g) = (16 + length (json g))%nat.
Proof. reflexivity. Qed.

Lemma load_raw_length (w : world) :
  length (json (g_cfg w)) = Z.to_nat LIFU_CFG_JSON_MAX ->
  length (json (g_cfg (lifu_cfg_load_raw w))) = Z.to_nat LIFU_CFG_JSON_MAX.
Proof.
  intros Hlen. unfold lifu_cfg_load_raw, Flash_Read. cbn [g_cfg cfg_of_bytes json].
  rewrite length_skipn, memcpy_length, cfg_bytes_length, Hlen, json_max_nat.
  - reflexivity.
  - rewrite length_map, addresses_length. lia.
  - rewrite cfg_bytes_length, Hlen, json_max_nat, words_nat. lia.
Qed.

Lemma cache_loaded_valid_ok (w : world) : cache_loaded_valid w -> cache_ok w.
Proof. intros (_ & Hl & Hv). split; auto. Qed.

Lemma boot_ok (h : hw_t) : cache_ok (boot h).
Proof.
  split; [apply repeat_length | discriminate].
Qed.

Lemma default_cfg_fields :
  magic default_cfg = LIFU_MAGIC /\ version default_cfg = LIFU_VER
  /\ length (json default_cfg) = Z.to_nat LIFU_CFG_JSON_MAX.
Proof.
  split; [reflexivity | split; [reflexivity | apply repeat_length]].
Qed.

Lemma ensure_loaded_valid (w : world) :
  cache_ok w -> cache_loaded_valid (lifu_cfg_ensure_loaded w).
Proof.
  intros [Hlen Hval]. unfold lifu_cfg_ensure_loaded, cache_loaded_valid.
  destruct (g_cfg_loaded w) eqn:Hld.
  - split; [exact Hld | split; [exact Hlen | exact (Hval eq_refl)]].
  - cbv zeta. pose proof (load_raw_length w Hlen) as Hlen1.
    destruct (lifu_cfg_is_valid (g_cfg (lifu_cfg_load_raw w))) eqn:Hv;
      cbn [negb g_cfg g_cfg_loaded].
    + split; [reflexivity | split; [exact Hlen1 | exact Hv]].
    + rewrite writeback_cfg, make_defaults_eq. cbn [g_cfg].
      destruct default_cfg_fields as (Hm & Hver & Hl).
      split; [reflexivity |].
      split; [apply written_length | apply written_valid]; assumption.
Qed.

Lemma writeback_valid (w : world) :
  length (json (g_cfg w)) = Z.to_nat LIFU_CFG_JSON_MAX ->
  magic (g_cfg w) = LIFU_MAGIC -> version (g_cfg w) = LIFU_VER ->
  g_cfg_loaded w = true ->
  cache_loaded_valid (snd (lifu_cfg_writeback w)).
Proof.
  intros Hlen Hm Hv Hld. unfold cache_loaded_valid.
  rewrite writeback_loaded, writeback_cfg.
  split; [exact Hld |].
  split; [apply written_length | apply written_valid]; assumption.
Qed.

Lemma save_merge_length (g c : lifu_cfg_t) :
  length (json g) = Z.to_nat LIFU_CFG_JSON_MAX ->
  length (json c) = Z.to_nat LIFU_CFG_JSON_MAX ->
  length (store (memcpy (json g) (json c) (Z.to_nat LIFU_CFG_JSON_MAX))
                (Z.to_nat (LIFU_CFG_JSON_MAX - 1)) 0)
  = Z.to_nat LIFU_CFG_JSON_MAX.
Proof.
  intros Hg Hc. rewrite store_length, memcpy_length; [exact Hg | lia | lia].
Qed.

Lemma run_op_loaded_valid (op : store_op) (w : world) :
  cache_ok w -> op_wf op -> loads op = true ->
  cache_loaded_valid (run_op op w).
Proof.
  intros Hok Hwf Hl.
  pose proof (ensure_loaded_valid w Hok) as Hens.
  pose proof Hens as (Hld & Hlen & Hval).
  pose proof (proj1 (is_valid_iff _) Hval) as (Hm & Hv & _).
  destruct op as [| [o|] | c | |]; cbn [run_op]; try discriminate Hl.
  - exact Hens.
  - exact Hens.
  - unfold lifu_cfg_save. cbv zeta.
    apply writeback_valid; cbn [g_cfg g_cfg_loaded magic version json
      set_json set_auto_on set_hv_enabled set_hv_settng set_version set_magic];
      try reflexivity; try assumption.
    apply save_merge_length; assumption.
  - unfold lifu_cfg_commit. cbv zeta. apply writeback_valid; assumption.
  - unfold lifu_cfg_factory_reset. cbv zeta. rewrite make_defaults_eq.
    destruct default_cfg_fields as (Hm' & Hv' & Hl').
    apply writeback_valid; cbn [g_cfg g_cfg_loaded]; assumption.
Qed.

Lemma run_op_ok (op : store_op) (w : world) :
  cache_ok w -> op_wf op -> cache_ok (run_op op w).
Proof.
  intros Hok Hwf. destruct (loads op) eqn:Hl.
  - apply cache_loaded_valid_ok, run_op_loaded_valid; assumption.
  - destruct op as [| [o|] | c | |]; try discriminate Hl. exact Hok.
Qed.

Lemma run_ops_ok (ops : list store_op) (w : world) :
  cache_ok w -> Forall op_wf ops -> cache_ok (run_ops ops w).
Proof.
  revert w. induction ops as [|op ops IH]; intros w Hok Hall.
  - exact Hok.
  - inversion Hall as [|? ? Hop Hrest]; subst. cbn [run_ops fold_left].
    apply IH; [apply run_op_ok; assumption | exact Hrest].
Qed.

Lemma ensure_loaded_loaded (w : world) :
  g_cfg_loaded (lifu_cfg_ensure_loaded w) = true.
Proof.
  unfold lifu_cfg_ensure_loaded.
  destruct (g_cfg_loaded w) eqn:E; [exact E | reflexivity].
Qed.

Lemma ensure_loaded_when_loaded (w : world) :
  g_cfg_loaded w = true -> lifu_cfg_ensure_loaded w = w.
Proof.
  intros E. unfold lifu_cfg_ensure_loaded. rewrite E. reflexivity.
Qed.

(** On a record that fails validation the lazy load regenerates the
    defaults and writes them back. *)
Lemma ensure_loaded_invalid (w : world) :
  g_cfg_loaded w = false ->
  lifu_cfg_is_valid (g_cfg (lifu_cfg_load_raw w)) = false ->
  lifu_cfg_ensure_loaded w =
  let w2 := snd (lifu_cfg_writeback
                   (mkWorld default_cfg false (hw (lifu_cfg_load_raw w)))) in
  mkWorld (g_cfg w2) true (hw w2).
Proof.
  intros Hld Hv. unfold lifu_cfg_ensure_loaded. rewrite Hld. cbv zeta.
  rewrite Hv. cbn [negb]. rewrite make_defaults_eq.
  assert (E : g_cfg_loaded (lifu_cfg_load_raw w) = false) by exact Hld.
  rewrite E. reflexivity.
Qed.

(* ------------------------------------------------------------------ *)
(** * The validity predicate, [lifu_cfg_get] and [lifu_cfg_snapshot] *)

(** C7: [lifu_cfg_is_valid] accepts a record exactly when its magic is
    [LIFU_MAGIC], its version is [LIFU_VER], some byte of the payload array
    is NUL, and the checksum the store recomputes equals the stored [crc];
    in every other case the answer is the same [false]. *)
Theorem lifu_cfg_is_valid_four_checks (cfg : lifu_cfg_t) :
  (lifu_cfg_is_valid cfg = true <->
   magic cfg = LIFU_MAGIC
   /\ version cfg = LIFU_VER
   /\ (exists i, (i < Z.to_nat LIFU_CFG_JSON_MAX)%nat
                 /\ nth_error (json cfg) i = Some 0)
   /\ lifu_cfg_calc_crc cfg = crc cfg)
  /\ (lifu_cfg_is_valid cfg = false <->
      ~ (magic cfg = LIFU_MAGIC
         /\ version cfg = LIFU_VER
         /\ (exists i, (i < Z.to_nat LIFU_CFG_JSON_MAX)%nat
                       /\ nth_error (json cfg) i = Some 0)
         /\ lifu_cfg_calc_crc cfg = crc cfg)).
Proof.
  assert (H : lifu_cfg_is_valid cfg = true <->
              magic cfg = LIFU_MAGIC
              /\ version cfg = LIFU_VER
              /\ (exists i, (i < Z.to_nat LIFU_CFG_JSON_MAX)%nat
                            /\ nth_error (json cfg) i = Some 0)
              /\ lifu_cfg_calc_crc cfg = crc cfg).
  { rewrite is_valid_iff, memchr_found_iff. reflexivity. }
  split; [exact H|].
  rewrite <- H. destruct (lifu_cfg_is_valid cfg); split; congruence.
Qed.

(** C8: a second [lifu_cfg_get] straight after a first returns the same
    record contents and leaves the whole state as it was: cache, flash
    contents and the log of flash reads, erases and programs. *)
Theorem lifu_cfg_get_twice (w : world) :
  let w1 := snd (lifu_cfg_get w) in
  fst (lifu_cfg_get w1) = fst (lifu_cfg_get w)
  /\ snd (lifu_cfg_get w1) = w1
  /\ trace (hw (snd (lifu_cfg_get w1))) = trace (hw w1)
  /\ flash (hw (snd (lifu_cfg_get w1))) = flash (hw w1).
Proof.
  cbv zeta. unfold lifu_cfg_get. cbn [fst snd].
  rewrite (ensure_loaded_when_loaded _ (ensure_loaded_loaded w)).
  repeat split.
Qed.

(* ------------------------------------------------------------------ *)
(** * [Flash_Write] and its alignment check *)

Lemma land7_mod8 (a : Z) : Z.land a 0x7 = a mod 8.
Proof. change 0x7 with (Z.ones 3). rewrite Z.land_ones by lia. reflexivity. Qed.

(** C5 (as the code has it): a [Flash_Write] at an address that is not a
    multiple of 8 never touches the peripheral; it reports [HAL_ERROR] when
    the size is not zero, and [HAL_OK] when the size is zero, because the
    empty request is accepted before the alignment is looked at. *)
Theorem Flash_Write_misaligned
  (address : Z) (src : list Z) (size_bytes : Z) (h : hw_t) :
  address mod 8 <> 0 ->
  Flash_Write address src size_bytes h
  = (if size_bytes =? 0 then HAL_OK else HAL_ERROR, h).
Proof.
  intros Ha. unfold Flash_Write.
  destruct (size_bytes =? 0); [reflexivity|].
  rewrite land7_mod8.
  destruct (Z.eqb_spec (address mod 8) 0); [contradiction | reflexivity].
Qed.

Lemma Flash_Write_misaligned_witness :
  0x0803F804 mod 8 <> 0
  /\ Flash_Write 0x0803F804 [1; 2; 3; 4] 4 hw_blank = (HAL_ERROR, hw_blank).
Proof.
  assert (H : 0x0803F804 mod 8 <> 0) by (vm_compute; discriminate).
  split; [exact H|].
  exact (Flash_Write_misaligned 0x0803F804 [1; 2; 3; 4] 4 hw_blank H).
Defined.

(** C5, counterexample: an empty write at a misaligned address is reported
    as [HAL_OK], not [HAL_ERROR]. *)
Lemma Flash_Write_misaligned_empty_ok :
  0x0803F801 mod 8 <> 0
  /\ Flash_Write 0x0803F801 [] 0 hw_blank = (HAL_OK, hw_blank)
  /\ fst (Flash_Write 0x0803F801 [] 0 hw_blank) <> HAL_ERROR.
Proof.
  split; [vm_compute; discriminate|].
  split; [reflexivity | vm_compute; discriminate].
Qed.

(* ------------------------------------------------------------------ *)
(** * The sequence counter *)

Lemma save_cfg (c : lifu_cfg_t) (w : world) :
  g_cfg (snd (lifu_cfg_save c w)) =
  let g := g_cfg (lifu_cfg_ensure_loaded w) in
  written
    (mkCfg LIFU_MAGIC LIFU_VER (seq g) (crc g) (reserved g)
           (hv_settng c) (hv_enabled c) (auto_on c)
           (store (memcpy (json g) (json c) (Z.to_nat LIFU_CFG_JSON_MAX))
                  (Z.to_nat (LIFU_CFG_JSON_MAX - 1)) 0)).
Proof. unfold lifu_cfg_save. cbv zeta. rewrite writeback_cfg. reflexivity. Qed.

Lemma run_op_seq (op : store_op) (w : world) :
  g_cfg_loaded w = true -> save_or_commit op ->
  g_cfg_loaded (run_op op w) = true
  /\ seq (g_cfg (run_op op w)) = u32 (seq (g_cfg w) + 1).
Proof.
  intros Hld Hop.
  destruct op as [| out | c | |]; cbn [save_or_commit] in Hop;
    try contradiction; cbn [run_op].
  - split.
    + unfold lifu_cfg_save. cbv zeta. rewrite writeback_loaded.
      cbn [g_cfg_loaded]. apply ensure_loaded_loaded.
    + rewrite save_cfg. cbv zeta. rewrite written_eq. cbn [seq].
      rewrite (ensure_loaded_when_loaded w Hld). reflexivity.
  - unfold lifu_cfg_commit. cbv zeta.
    rewrite writeback_loaded, writeback_cfg, written_eq. cbn [seq].
    rewrite (ensure_loaded_when_loaded w Hld). split; [exact Hld | reflexivity].
Qed.

Lemma factory_reset_seq (w : world) :
  seq (g_cfg (snd (lifu_cfg_factory_reset w))) = 1.
Proof.
  unfold lifu_cfg_factory_reset. cbv zeta.
  rewrite writeback_cfg, make_defaults_eq, written_eq. reflexivity.
Qed.

(** C3 (as the code has it): on a loaded store, every call to
    [lifu_cfg_save] or [lifu_cfg_commit], whatever status it returns, adds
    exactly one to [seq], so [N] such calls add [N] as long as the 32-bit
    counter does not wrap; [lifu_cfg_factory_reset] does not continue the
    count, it leaves [seq] at 1 whatever it was. *)
Theorem seq_counts_saves_and_commits (w : world) (ops : list store_op) :
  g_cfg_loaded w = true ->
  Forall save_or_commit ops ->
  0 <= seq (g_cfg w) ->
  seq (g_cfg w) + Z.of_nat (length ops) < 2 ^ 32 ->
  seq (g_cfg (run_ops ops w)) = seq (g_cfg w) + Z.of_nat (length ops)
  /\ seq (g_cfg (snd (lifu_cfg_factory_reset (run_ops ops w)))) = 1.
Proof.
  intros Hld Hall H0 Hmax. split; [| apply factory_reset_seq].
  revert w Hld H0 Hmax.
  induction Hall as [| op ops Hop Hall IH]; intros w Hld H0 Hmax.
  - cbn [run_ops fold_left length Z.of_nat]. lia.
  - cbn [run_ops fold_left]. cbn [length] in *.
    destruct (run_op_seq op w Hld Hop) as [Hld' Hseq].
    assert (Hs : seq (g_cfg (run_op op w)) = seq (g_cfg w) + 1).
    { rewrite Hseq. unfold u32. apply Z.mod_small. lia. }
    fold (run_ops ops (run_op op w)).
    rewrite IH; [lia | exact Hld' | lia | lia].
Qed.

Lemma seq_counts_saves_and_commits_witness :
  let w := snd (lifu_cfg_get (boot hw_blank)) in
  let ops := [OpSave stale_candidate; OpCommit; OpCommit] in
  g_cfg_loaded w = true
  /\ seq (g_cfg w) = 1
  /\ seq (g_cfg (run_ops ops w)) = seq (g_cfg w) + Z.of_nat (length ops)
  /\ seq (g_cfg (snd (lifu_cfg_factory_reset (run_ops ops w)))) = 1.
Proof.
  cbv zeta.
  split; [reflexivity|]. split; [vm_compute; reflexivity|].
  apply (seq_counts_saves_and_commits
           (snd (lifu_cfg_get (boot hw_blank)))
           [OpSave stale_candidate; OpCommit; OpCommit]).
  - reflexivity.
  - repeat constructor.
  - vm_compute. discriminate.
  - vm_compute. reflexivity.
Defined.

(** C3, counterexample: a successful commit followed by a successful
    factory reset takes [seq] from 2 back to 1. *)
Lemma factory_reset_rewinds_seq :
  let w1 := snd (lifu_cfg_commit (boot hw_blank)) in
  let r := lifu_cfg_factory_reset w1 in
  fst (lifu_cfg_commit (boot hw_blank)) = HAL_OK
  /\ fst r = HAL_OK
  /\ seq (g_cfg w1) = 2
  /\ seq (g_cfg (snd r)) = 1
  /\ seq (g_cfg (snd r)) <> seq (g_cfg w1) + 1
  /\ ~ seq (g_cfg w1) < seq (g_cfg (snd r)).
Proof.
  vm_compute. repeat split; discriminate.
Qed.

(* ------------------------------------------------------------------ *)
(** * What [lifu_cfg_save] keeps of the candidate *)

Lemma strnlen_store_last (l : list Z) (m : nat) :
  (m < length l)%nat -> strnlen (store l m 0) (S m) = strnlen l m.
Proof.
  revert l; induction m as [|m IH]; intros [|c l] H; cbn [length] in H;
    try lia.
  - reflexivity.
  - cbn [store]. change (strnlen (c :: store l m 0) (S (S m)))
      with (if c =? 0 then O else S (strnlen (store l m 0) (S m))).
    change (strnlen (c :: l) (S m))
      with (if c =? 0 then O else S (strnlen l m)).
    rewrite IH by lia. reflexivity.
Qed.

Lemma firstn_store (l : list Z) (m k : nat) (v : Z) :
  (k <= m)%nat -> firstn k (store l m v) = firstn k l.
Proof.
  revert m k; induction l as [|x l IH]; intros [|m] [|k] H;
    cbn [store firstn]; try reflexivity; try lia.
  f_equal. apply IH. lia.
Qed.

Lemma firstn_snoc_nth (l : list Z) (n : nat) (x : Z) :
  nth_error l n = Some x -> firstn (S n) l = firstn n l ++ [x].
Proof.
  revert l; induction n as [|n IH]; intros [|y l] H; try discriminate.
  - injection H as ->. reflexivity.
  - cbn [nth_error] in H. change (firstn (S (S n)) (y :: l))
      with (y :: firstn (S n) l).
    rewrite (IH l H). reflexivity.
Qed.

(** Normalisation keeps the bytes before the first NUL and fills the rest
    of the array with zeros. *)
Lemma normalized_spec (j0 : list Z) :
  length j0 = Z.to_nat LIFU_CFG_JSON_MAX ->
  let n := strnlen j0 (Z.to_nat LIFU_CFG_JSON_MAX - 1) in
  normalized j0 = firstn n j0 ++ repeat 0 (Z.to_nat LIFU_CFG_JSON_MAX - n).
Proof.
  unfold normalized.
  assert (Hpos : (0 < Z.to_nat LIFU_CFG_JSON_MAX)%nat)
    by (rewrite json_max_nat; lia).
  generalize dependent (Z.to_nat LIFU_CFG_JSON_MAX). intros cap Hpos Hlen.
  destruct cap as [|m]; [lia|]. cbv zeta.
  replace (S m - 1)%nat with m by lia.
  set (j := store j0 m 0).
  assert (Hj : length j = S m) by (unfold j; rewrite store_length; exact Hlen).
  assert (Hlast : nth_error j m = Some 0)
    by (unfold j; apply store_nth_same; lia).
  assert (Hn : strnlen j (S m) = strnlen j0 m)
    by (unfold j; apply strnlen_store_last; lia).
  destruct (strnlen_nul j (S m) m ltac:(lia) Hlast) as [Hle Hnul].
  rewrite Hn in *. set (n := strnlen j0 m) in *.
  assert (Hpre : firstn n j = firstn n j0)
    by (unfold j; apply firstn_store; exact Hle).
  destruct (Nat.ltb_spec n m) as [Hlt | Hge].
  - unfold memset.
    replace (n + 1)%nat with (S n) by lia.
    rewrite (firstn_snoc_nth j n 0 Hnul), Hpre.
    rewrite skipn_all2 by lia. rewrite app_nil_r, <- app_assoc.
    replace (S m - n)%nat with (S (m - n)) by lia. reflexivity.
  - assert (n = m) by lia. subst n.
    rewrite <- Hpre. replace (S m - strnlen j0 m)%nat with 1%nat by lia.
    cbn [repeat]. rewrite <- (firstn_snoc_nth j _ 0 Hnul).
    symmetry. apply firstn_all2. lia.
Qed.

Lemma json_last_nat :
  Z.to_nat (LIFU_CFG_JSON_MAX - 1) = (Z.to_nat LIFU_CFG_JSON_MAX - 1)%nat.
Proof. reflexivity. Qed.

(** C6 (as the code has it): whatever the candidate's [magic], [version],
    [seq] and [crc], [lifu_cfg_save] leaves the cache with [magic] equal to
    [LIFU_MAGIC], [version] equal to [LIFU_VER], [seq] equal to the cached
    [seq] plus one (as a 32-bit counter) and [crc] recomputed; [hv_settng],
    [hv_enabled] and [auto_on] are the candidate's; the payload is the
    candidate's up to its first NUL (at most the first
    [LIFU_CFG_JSON_MAX - 1] bytes), and zero from there to the end of the
    array, because write-back normalises the copy.  This holds whatever
    status the call returns. *)
Theorem lifu_cfg_save_fields (new_cfg : lifu_cfg_t) (w : world) :
  cache_ok w ->
  length (json new_cfg) = Z.to_nat LIFU_CFG_JSON_MAX ->
  let prev := g_cfg (lifu_cfg_ensure_loaded w) in
  let g := g_cfg (snd (lifu_cfg_save new_cfg w)) in
  let n := strnlen (json new_cfg) (Z.to_nat LIFU_CFG_JSON_MAX - 1) in
  magic g = LIFU_MAGIC
  /\ version g = LIFU_VER
  /\ seq g = u32 (seq prev + 1)
  /\ crc g = lifu_cfg_calc_crc g
  /\ hv_settng g = hv_settng new_cfg
  /\ hv_enabled g = hv_enabled new_cfg
  /\ auto_on g = auto_on new_cfg
  /\ json g = firstn n (json new_cfg)
              ++ repeat 0 (Z.to_nat LIFU_CFG_JSON_MAX - n).
Proof.
  intros Hok Hc. cbv zeta.
  destruct (ensure_loaded_valid w Hok) as (_ & Hlen & _).
  rewrite save_cfg. cbv zeta. rewrite written_eq, calc_crc_header.
  cbn [magic version seq crc hv_settng hv_enabled auto_on json].
  split; [reflexivity|]. split; [reflexivity|]. split; [reflexivity|].
  split; [reflexivity|]. split; [reflexivity|]. split; [reflexivity|].
  split; [reflexivity|].
  assert (Hcopy : memcpy (json (g_cfg (lifu_cfg_ensure_loaded w)))
                         (json new_cfg) (Z.to_nat LIFU_CFG_JSON_MAX)
                  = json new_cfg).
  { unfold memcpy. rewrite firstn_all2 by lia. rewrite skipn_all2 by lia.
    apply app_nil_r. }
  rewrite Hcopy, json_last_nat.
  set (cap := Z.to_nat LIFU_CFG_JSON_MAX) in *.
  pose proof (normalized_spec (store (json new_cfg) (cap - 1) 0)) as Hn.
  fold cap in Hn. rewrite store_length in Hn. specialize (Hn Hc).
  cbv zeta in Hn. rewrite Hn.
  assert (Hpos : (0 < cap)%nat) by (unfold cap; rewrite json_max_nat; lia).
  assert (Hs : strnlen (store (json new_cfg) (cap - 1) 0) (cap - 1)
               = strnlen (json new_cfg) (cap - 1)).
  { clear Hn Hcopy. generalize (json new_cfg). generalize (cap - 1)%nat.
    induction n as [|n IH]; intros [|c l]; try reflexivity.
    cbn [store]. change (strnlen (c :: store l n 0) (S n))
      with (if c =? 0 then O else S (strnlen (store l n 0) n)).
    change (strnlen (c :: l) (S n))
      with (if c =? 0 then O else S (strnlen l n)).
    rewrite IH. reflexivity. }
  rewrite Hs. f_equal. apply firstn_store. apply strnlen_le.
Qed.

Lemma lifu_cfg_save_fields_witness :
  let g := g_cfg (snd (lifu_cfg_save stale_candidate (boot hw_blank))) in
  magic stale_candidate <> LIFU_MAGIC
  /\ length (json stale_candidate) = Z.to_nat LIFU_CFG_JSON_MAX
  /\ magic g = LIFU_MAGIC
  /\ version g = LIFU_VER
  /\ seq g = 2
  /\ hv_settng g = 120
  /\ json g = payload [65].
Proof.
  cbv zeta.
  assert (Hc : length (json stale_candidate) = Z.to_nat LIFU_CFG_JSON_MAX)
    by (vm_compute; reflexivity).
  destruct (lifu_cfg_save_fields stale_candidate (boot hw_blank)
              (boot_ok hw_blank) Hc)
    as (Hm & Hv & Hs & _ & Hh & _ & _ & Hj).
  split; [vm_compute; discriminate|]. split; [exact Hc|].
  split; [exact Hm|]. split; [exact Hv|].
  split; [rewrite Hs; vm_compute; reflexivity|].
  split; [exact Hh|].
  rewrite Hj. vm_compute. reflexivity.
Defined.

(** C6, counterexample: the candidate's payload is ['A'; NUL; 'B'; 'C'; ...];
    after a successful save the cached payload is not that buffer with its
    last byte cleared: the 'B' and 'C' after the first NUL are gone. *)
Lemma save_payload_not_verbatim :
  let r := lifu_cfg_save stale_candidate (boot hw_blank) in
  let verbatim :=
    store (json stale_candidate) (Z.to_nat (LIFU_CFG_JSON_MAX - 1)) 0 in
  fst r = HAL_OK
  /\ nth_error verbatim 2 = Some 66
  /\ nth_error (json (g_cfg (snd r))) 2 = Some 0
  /\ json (g_cfg (snd r)) <> verbatim.
Proof.
  cbv zeta.
  split; [vm_compute; reflexivity|].
  split; [vm_compute; reflexivity|].
  split; [vm_compute; reflexivity|].
  intros H. apply (f_equal (fun l => nth_error l 2)) in H.
  vm_compute in H. discriminate.
Qed.

(* ------------------------------------------------------------------ *)
(** * Recovery from a page that fails validation *)

Lemma written_default_cfg : written default_cfg = recovered_cfg.
Proof. vm_compute. reflexivity. Qed.

Lemma recovered_cfg_valid : lifu_cfg_is_valid recovered_cfg = true.
Proof. vm_compute. reflexivity. Qed.

(** With no HAL failure, writing back the defaults leaves in flash a page
    that is itself a valid record with the recovered header and an empty
    payload string. *)
Lemma writeback_defaults_page (f : Z -> Z) (t : list flash_event) (b : bool) :
  let p := page_record
             (hw (snd (lifu_cfg_writeback
                         (mkWorld default_cfg b (mkHw f [] t))))) in
  lifu_cfg_is_valid p = true
  /\ magic p = LIFU_MAGIC /\ version p = LIFU_VER /\ seq p = 1
  /\ crc p = crc recovered_cfg
  /\ strnlen (json p) (Z.to_nat LIFU_CFG_JSON_MAX) = O.
Proof.
  vm_compute. repeat split.
Qed.

(** C4 (as the code has it): when the page read on first access fails
    validation, [lifu_cfg_get] (which has no error channel) returns the
    defaults as write-back leaves them: the default magic and version, an
    empty all-zero payload, and [seq] equal to 1, because write-back bumps
    the default 0 before persisting; that record is valid and is now the
    cache.  When no HAL call fails, the flash page afterwards is itself a
    valid record with the same header and an empty payload string. *)
Theorem corrupt_page_recovers_defaults (w : world) :
  g_cfg_loaded w = false ->
  lifu_cfg_is_valid (g_cfg (lifu_cfg_load_raw w)) = false ->
  let r := fst (lifu_cfg_get w) in
  let w' := snd (lifu_cfg_get w) in
  r = recovered_cfg
  /\ r = written (lifu_cfg_make_defaults (g_cfg w))
  /\ seq r = 1
  /\ json r = repeat 0 (Z.to_nat LIFU_CFG_JSON_MAX)
  /\ lifu_cfg_is_valid r = true
  /\ g_cfg w' = r
  /\ g_cfg_loaded w' = true
  /\ (script (hw w) = [] ->
      let p := page_record (hw w') in
      lifu_cfg_is_valid p = true
      /\ magic p = LIFU_MAGIC /\ version p = LIFU_VER /\ seq p = 1
      /\ crc p = crc r
      /\ strnlen (json p) (Z.to_nat LIFU_CFG_JSON_MAX) = O).
Proof.
  intros Hld Hv. cbv zeta. unfold lifu_cfg_get. cbn [fst snd].
  rewrite (ensure_loaded_invalid w Hld Hv). cbv zeta.
  cbn [g_cfg g_cfg_loaded hw].
  rewrite writeback_cfg. cbn [g_cfg].
  rewrite make_defaults_eq, written_default_cfg.
  split; [reflexivity|]. split; [reflexivity|]. split; [reflexivity|].
  split; [reflexivity|]. split; [exact recovered_cfg_valid|].
  split; [reflexivity|]. split; [reflexivity|].
  intros Hs. destruct w as [g ld [f s t]]. cbn [hw script] in Hs. subst s.
  unfold lifu_cfg_load_raw, Flash_Read, log. cbn [hw flash script trace].
  apply writeback_defaults_page.
Qed.

Lemma corrupt_page_recovers_defaults_witness :
  let w := boot hw_corrupt_magic in
  let r := fst (lifu_cfg_get w) in
  let w' := snd (lifu_cfg_get w) in
  g_cfg_loaded w = false
  /\ lifu_cfg_is_valid (g_cfg (lifu_cfg_load_raw w)) = false
  /\ r = recovered_cfg
  /\ seq r = 1
  /\ lifu_cfg_is_valid r = true
  /\ lifu_cfg_is_valid (page_record (hw w')) = true.
Proof.
  cbv zeta.
  assert (Hv : lifu_cfg_is_valid
                 (g_cfg (lifu_cfg_load_raw (boot hw_corrupt_magic))) = false)
    by (vm_compute; reflexivity).
  destruct (corrupt_page_recovers_defaults (boot hw_corrupt_magic)
              eq_refl Hv)
    as (Hr & _ & Hs & _ & Hval & _ & _ & Hp).
  split; [reflexivity|]. split; [exact Hv|].
  split; [exact Hr|]. split; [exact Hs|]. split; [exact Hval|].
  apply Hp. reflexivity.
Defined.

(** C4, counterexample: the page holds the record of an earlier save with
    its [magic] corrupted; the record the first [lifu_cfg_get] returns has [seq]
    equal to 1, not 0, and so is not the freshly generated defaults. *)
Lemma recovered_record_has_seq_one :
  let raw := g_cfg (lifu_cfg_load_raw (boot hw_corrupt_magic)) in
  let r := fst (lifu_cfg_get (boot hw_corrupt_magic)) in
  magic raw <> LIFU_MAGIC
  /\ version raw = LIFU_VER
  /\ lifu_cfg_is_valid raw = false
  /\ seq (lifu_cfg_make_defaults cfg_zero) = 0
  /\ seq r = 1
  /\ seq r <> 0
  /\ r <> lifu_cfg_make_defaults cfg_zero.
Proof.
  cbv zeta.
  split; [vm_compute; discriminate|].
  split; [vm_compute; reflexivity|].
  split; [vm_compute; reflexivity|].
  split; [vm_compute; reflexivity|].
  split; [vm_compute; reflexivity|].
  split; [vm_compute; discriminate|].
  intros H. apply (f_equal seq) in H. vm_compute in H. discriminate.
Qed.

(* ------------------------------------------------------------------ *)
(** * What the checksum covers, and what write-back programs *)

(** C1, the code at a failing input: after saving the payload "A" the
    stored [crc] is the checksum of the twelve bytes of [magic], [version]
    and [seq] alone; it is not the checksum of header and payload; and the
    record stays valid, with the same [crc], when its payload byte 'A' is
    changed to 'B'.  In general the payload never enters the checksum. *)
Theorem crc_does_not_cover_payload :
  let r := g_cfg (snd (lifu_cfg_save stale_candidate (boot hw_blank))) in
  let r' := set_json r (store (json r) 0 66) in
  fst (lifu_cfg_save stale_candidate (boot hw_blank)) = HAL_OK
  /\ lifu_cfg_is_valid r = true
  /\ crc r = crc16_ccitt (le32 (magic r) ++ le32 (version r) ++ le32 (seq r))
  /\ crc r <> crc16_ccitt (header_and_payload r)
  /\ crc r <> crc16_ccitt (all_but_crc r)
  /\ nth_error (json r) 0 = Some 65
  /\ nth_error (json r') 0 = Some 66
  /\ crc r' = crc r
  /\ lifu_cfg_is_valid r' = true
  /\ (forall cfg j,
        lifu_cfg_calc_crc (set_json cfg j) = lifu_cfg_calc_crc cfg).
Proof.
  cbv zeta.
  split; [vm_compute; reflexivity|].
  split; [vm_compute; reflexivity|].
  split; [vm_compute; reflexivity|].
  split; [vm_compute; discriminate|].
  split; [vm_compute; discriminate|].
  split; [vm_compute; reflexivity|].
  split; [vm_compute; reflexivity|].
  split; [vm_compute; reflexivity|].
  split; [vm_compute; reflexivity|].
  exact calc_crc_set_json.
Qed.

(** C2, the code at a failing input: on blank flash the lazy load writes
    the defaults back, and a save of a 1000-byte payload then returns
    [HAL_OK]; each of the two write-backs erased the page and issued 64
    doubleword programs.  The first 512 bytes of the page equal those of the
    cached record and the other 1536 are still erased, so the page differs
    from the record, for instance at byte 600. *)
Theorem writeback_programs_512_bytes :
  let w1 := snd (lifu_cfg_get (boot hw_blank)) in
  let r := lifu_cfg_save long_candidate w1 in
  let g := g_cfg (snd r) in
  let page := page_bytes (hw (snd r)) in
  fst r = HAL_OK
  /\ length (cfg_bytes g) = 2048%nat
  /\ length page = 2048%nat
  /\ length (filter is_program (trace (hw w1))) = 64%nat
  /\ length (filter is_program (trace (hw (snd r)))) = (64 + 64)%nat
  /\ firstn 512 page = firstn 512 (cfg_bytes g)
  /\ skipn 512 page = repeat 0xFF 1536
  /\ nth_error (cfg_bytes g) 600 = Some 65
  /\ nth_error page 600 = Some 0xFF
  /\ page <> cfg_bytes g.
Proof.
  cbv zeta.
  split; [vm_compute; reflexivity|].
  split; [vm_compute; reflexivity|].
  split; [vm_compute; reflexivity|].
  split; [vm_compute; reflexivity|].
  split; [vm_compute; reflexivity|].
  split; [vm_compute; reflexivity|].
  split; [vm_compute; reflexivity|].
  split; [vm_compute; reflexivity|].
  split; [vm_compute; reflexivity|].
  intros H. apply (f_equal (fun l => nth_error l 600)) in H.
  vm_compute in H. discriminate.
Qed.

(** Any exclusive end address inside the record's page makes [Flash_Erase]
    select that one page. *)
Lemma erase_range_one_page (e : Z) :
  LIFU_CFG_PAGE_ADDR < e <= LIFU_CFG_PAGE_ADDR + LIFU_CFG_PAGE_SIZE ->
  GetPage LIFU_CFG_PAGE_ADDR = 127
  /\ GetPage (u32 (e - 1)) = 127
  /\ u32 (u32 (GetPage (u32 (e - 1)) - GetPage LIFU_CFG_PAGE_ADDR) + 1) = 1.
Proof.
  intros He.
  assert (E : LIFU_CFG_PAGE_ADDR = 0x0803F800) by reflexivity.
  assert (S : LIFU_CFG_PAGE_SIZE = 2048) by reflexivity.
  rewrite E, S in He.
  assert (H1 : GetPage LIFU_CFG_PAGE_ADDR = 127) by reflexivity.
  assert (H2 : GetPage (u32 (e - 1)) = 127).
  { unfold GetPage, u32.
    rewrite (Z.mod_small (e - 1)) by lia.
    change (FLASH_BASE + FLASH_BANK_SIZE) with 0x08040000.
    destruct (Z.ltb_spec (e - 1) 0x08040000); [| lia].
    change FLASH_BASE with 0x08000000. change FLASH_PAGE_SIZE with 2048.
    rewrite Z.mod_small by lia.
    symmetry.
    apply Z.div_unique with (r := e - 1 - 0x08000000 - 2048 * 127); lia. }
  rewrite H1, H2. repeat split.
Qed.

(* ------------------------------------------------------------------ *)
(** * Further properties of the flash layer *)

(** Case analysis on the first address comparison in the goal. *)
Ltac case_bound :=
  match goal with
  | |- context [?x <=? ?y] => destruct (Z.leb_spec x y)
  | |- context [?x <? ?y] => destruct (Z.ltb_spec x y)
  end.

Lemma next_status_ok (h : hw_t) :
  no_failure h ->
  fst (next_status h) = HAL_OK
  /\ Forall (fun s => s = HAL_OK) (snd (next_status h)).
Proof.
  unfold no_failure, next_status. intros H.
  destruct (script h) as [|s rest]; [split; [reflexivity | constructor]|].
  inversion H; subst. split; [reflexivity | assumption].
Qed.

Lemma GetPage_bank1 (a : Z) :
  FLASH_BASE <= a < FLASH_BASE + FLASH_BANK_SIZE ->
  GetPage a = (a - FLASH_BASE) / FLASH_PAGE_SIZE.
Proof.
  intros Ha. unfold GetPage.
  destruct (Z.ltb_spec a (FLASH_BASE + FLASH_BANK_SIZE)); [| lia].
  unfold u32. rewrite Z.mod_small; [reflexivity|].
  unfold FLASH_BASE, FLASH_BANK_SIZE in *. lia.
Qed.

Lemma GetPage_in_page (a : Z) :
  FLASH_BASE <= a < FLASH_BASE + FLASH_BANK_SIZE ->
  0 <= GetPage a < 128
  /\ page_start (GetPage a) <= a < page_start (GetPage a + 1).
Proof.
  intros Ha. rewrite (GetPage_bank1 a Ha). unfold page_start.
  unfold FLASH_BASE, FLASH_BANK_SIZE, FLASH_PAGE_SIZE in *.
  pose proof (Z.div_mod (a - 134217728) 2048 ltac:(lia)) as Hdm.
  pose proof (Z.mod_pos_bound (a - 134217728) 2048 ltac:(lia)) as Hb.
  lia.
Qed.

(** X1: [GetPage] sends every address of the 256 KB flash to a page number
    below 128, and the address lies inside that 2 KB page. *)
Theorem GetPage_contains (a : Z) :
  FLASH_BASE <= a < FLASH_BASE + FLASH_BANK_SIZE ->
  0 <= GetPage a < 128
  /\ page_start (GetPage a) <= a < page_start (GetPage a + 1).
Proof. exact (GetPage_in_page a). Qed.

Lemma GetPage_contains_witness :
  FLASH_BASE <= 0x0803FABC < FLASH_BASE + FLASH_BANK_SIZE
  /\ GetPage 0x0803FABC = 127
  /\ page_start 127 <= 0x0803FABC < page_start 128.
Proof.
  assert (H : FLASH_BASE <= 0x0803FABC < FLASH_BASE + FLASH_BANK_SIZE)
    by (vm_compute; split; [discriminate | reflexivity]).
  split; [exact H|]. split; [reflexivity|].
  exact (proj2 (GetPage_contains 0x0803FABC H)).
Defined.

(** X2: an empty or inverted range is refused by [Flash_Erase] with
    [HAL_ERROR] before the peripheral is touched: nothing is unlocked,
    erased or logged. *)
Theorem Flash_Erase_empty_range (start_address end_address : Z) (h : hw_t) :
  end_address <= start_address ->
  Flash_Erase start_address end_address h = (HAL_ERROR, h).
Proof.
  intros H. unfold Flash_Erase.
  destruct (Z.leb_spec end_address start_address); [reflexivity | lia].
Qed.

Lemma Flash_Erase_empty_range_witness :
  0x0803F800 <= 0x0803F800
  /\ Flash_Erase 0x0803F800 0x0803F800 hw_blank = (HAL_ERROR, hw_blank).
Proof.
  assert (H : 0x0803F800 <= 0x0803F800) by lia.
  split; [exact H|].
  exact (Flash_Erase_empty_range 0x0803F800 0x0803F800 hw_blank H).
Defined.

Lemma Flash_Erase_ok (start_address end_address : Z) (h : hw_t) :
  FLASH_BASE <= start_address ->
  start_address < end_address ->
  end_address <= FLASH_BASE + FLASH_BANK_SIZE ->
  no_failure h ->
  let r := Flash_Erase start_address end_address h in
  fst r = HAL_OK
  /\ (forall a, start_address <= a < end_address -> flash (snd r) a = 0xFF)
  /\ (forall a, a < page_start (GetPage start_address)
                \/ page_start (GetPage (end_address - 1) + 1) <= a ->
                flash (snd r) a = flash h a)
  /\ hd EvUnlock (trace (snd r)) = EvLock
  /\ no_failure (snd r).
Proof.
  intros Hs Hlt He Hok. cbv zeta. unfold Flash_Erase.
  destruct (Z.leb_spec end_address start_address); [lia|].
  unfold HAL_FLASH_Unlock.
  destruct (next_status_ok h Hok) as [H1 H1'].
  destruct (next_status h) as [st rest]. cbn [fst snd] in H1, H1'. subst st.
  cbn [status_eqb negb]. unfold Flash_ClearErrors, log, HAL_FLASHEx_Erase.
  cbn [flash script trace].
  set (h2 := mkHw (flash h) rest (EvClearErrors :: EvUnlock :: trace h)).
  destruct (next_status_ok h2 H1') as [H2 H2'].
  subst h2. unfold next_status in *. cbn [script] in *.
  replace (u32 (end_address - 1)) with (end_address - 1)
    by (unfold u32; rewrite Z.mod_small; [reflexivity|];
        unfold FLASH_BASE, FLASH_BANK_SIZE in *; lia).
  destruct (GetPage_in_page start_address ltac:(lia)) as [Hp1 Hc1].
  destruct (GetPage_in_page (end_address - 1) ltac:(lia)) as [Hp2 Hc2].
  assert (Hmono : GetPage start_address <= GetPage (end_address - 1)).
  { rewrite !GetPage_bank1 by lia. apply Z.div_le_mono;
      unfold FLASH_PAGE_SIZE; lia. }
  replace (u32 (u32 (GetPage (end_address - 1) - GetPage start_address) + 1))
    with (GetPage (end_address - 1) - GetPage start_address + 1)
    by (unfold u32;
        rewrite (Z.mod_small (GetPage (end_address - 1) - GetPage start_address))
          by lia;
        rewrite Z.mod_small by lia; reflexivity).
  assert (Hin : forall f a, start_address <= a < end_address ->
            erased (GetPage start_address)
              (GetPage (end_address - 1) - GetPage start_address + 1) f a
            = 0xFF).
  { intros f a Ha. unfold erased, page_start, FLASH_BASE, FLASH_PAGE_SIZE in *.
    repeat case_bound; cbn [andb]; try reflexivity; lia. }
  assert (Hout : forall f a,
            a < page_start (GetPage start_address)
            \/ page_start (GetPage (end_address - 1) + 1) <= a ->
            erased (GetPage start_address)
              (GetPage (end_address - 1) - GetPage start_address + 1) f a
            = f a).
  { intros f a Ha. unfold erased, page_start, FLASH_BASE, FLASH_PAGE_SIZE in *.
    repeat case_bound; cbn [andb]; try reflexivity; lia. }
  destruct rest as [|st rest']; cbn [fst snd] in *.
  - unfold HAL_FLASH_Lock, log. cbn [flash script trace hd fst snd].
    split; [reflexivity|]. split; [apply Hin|]. split; [apply Hout|].
    split; [reflexivity | constructor].
  - subst st. unfold HAL_FLASH_Lock, log. cbn [flash script trace hd fst snd].
    split; [reflexivity|]. split; [apply Hin|]. split; [apply Hout|].
    split; [reflexivity|].
    unfold no_failure. cbn [script]. exact H2'.
Qed.

(** X3: on a range inside the flash bank, and when the HAL reports no
    failure, [Flash_Erase] returns [HAL_OK], every byte of the range reads
    0xFF afterwards, no byte outside the pages that meet the range has
    changed, and the peripheral is locked again. *)
Theorem Flash_Erase_erases (start_address end_address : Z) (h : hw_t) :
  FLASH_BASE <= start_address ->
  start_address < end_address ->
  end_address <= FLASH_BASE + FLASH_BANK_SIZE ->
  no_failure h ->
  let r := Flash_Erase start_address end_address h in
  fst r = HAL_OK
  /\ (forall a, start_address <= a < end_address -> flash (snd r) a = 0xFF)
  /\ (forall a, a < page_start (GetPage start_address)
                \/ page_start (GetPage (end_address - 1) + 1) <= a ->
                flash (snd r) a = flash h a)
  /\ hd EvUnlock (trace (snd r)) = EvLock
  /\ no_failure (snd r).
Proof. exact (Flash_Erase_ok start_address end_address h). Qed.

Lemma Flash_Erase_erases_witness :
  let h := mkHw (fun _ => 0) [HAL_OK; HAL_OK] [] in
  let r := Flash_Erase LIFU_CFG_PAGE_ADDR (LIFU_CFG_PAGE_ADDR + 2048) h in
  no_failure h
  /\ fst r = HAL_OK
  /\ flash (snd r) 0x0803F800 = 0xFF
  /\ flash (snd r) 0x0803FFFF = 0xFF
  /\ flash (snd r) 0x0803F7FF = 0.
Proof.
  cbv zeta.
  assert (Hok : no_failure (mkHw (fun _ => 0) [HAL_OK; HAL_OK] []))
    by (repeat constructor).
  destruct (Flash_Erase_erases LIFU_CFG_PAGE_ADDR (LIFU_CFG_PAGE_ADDR + 2048)
              (mkHw (fun _ => 0) [HAL_OK; HAL_OK] []))
    as (H1 & H2 & H3 & _).
  - vm_compute. discriminate.
  - vm_compute. reflexivity.
  - vm_compute. discriminate.
  - exact Hok.
  - split; [exact Hok|]. split; [exact H1|].
    split; [apply H2; vm_compute; split; [discriminate | reflexivity]|].
    split; [apply H2; vm_compute; split; [discriminate | reflexivity]|].
    rewrite H3; [reflexivity|]. left. vm_compute. reflexivity.
Defined.

Lemma Flash_Erase_paths (start_address end_address : Z) (h : hw_t) :
  start_address < end_address ->
  (forall s rest, script h = s :: rest -> s <> HAL_OK ->
     Flash_Erase start_address end_address h
     = (s, mkHw (flash h) rest (EvUnlock :: trace h)))
  /\ (forall s rest, script h = HAL_OK :: s :: rest ->
        let r := Flash_Erase start_address end_address h in
        fst r = s
        /\ script (snd r) = rest
        /\ exists page n,
             trace (snd r)
             = EvLock :: EvErase FLASH_BANK_1 page n
                 :: EvClearErrors :: EvUnlock :: trace h).
Proof.
  intros Hlt. unfold Flash_Erase.
  destruct (Z.leb_spec end_address start_address); [lia|].
  unfold HAL_FLASH_Unlock, next_status. split.
  - intros s rest Hs Hne. rewrite Hs.
    destruct s; try reflexivity. contradiction.
  - intros s rest Hs. cbv zeta. rewrite Hs. cbn [status_eqb negb].
    unfold Flash_ClearErrors, HAL_FLASHEx_Erase, HAL_FLASH_Lock, log,
      next_status, GetBank.
    cbn [flash script trace fst snd].
    split; [reflexivity|]. split; [reflexivity|]. eauto.
Qed.

(** X4: when the unlock fails, [Flash_Erase] returns the unlock's status
    with the flash contents as they were and nothing erased or locked; when
    the unlock succeeds it returns exactly the status the page erase
    reports, one erase of bank 1 is logged, and the peripheral is locked
    again before the return. *)
Theorem Flash_Erase_status (start_address end_address : Z) (h : hw_t) :
  start_address < end_address ->
  (forall s rest, script h = s :: rest -> s <> HAL_OK ->
     Flash_Erase start_address end_address h
     = (s, mkHw (flash h) rest (EvUnlock :: trace h)))
  /\ (forall s rest, script h = HAL_OK :: s :: rest ->
        let r := Flash_Erase start_address end_address h in
        fst r = s
        /\ script (snd r) = rest
        /\ exists page n,
             trace (snd r)
             = EvLock :: EvErase FLASH_BANK_1 page n
                 :: EvClearErrors :: EvUnlock :: trace h).
Proof. exact (Flash_Erase_paths start_address end_address h). Qed.

Lemma Flash_Erase_status_witness :
  let h := mkHw (fun _ => 0) [HAL_OK; HAL_TIMEOUT; HAL_BUSY] [] in
  let r := Flash_Erase LIFU_CFG_PAGE_ADDR LIFU_CFG_PAGE_END h in
  LIFU_CFG_PAGE_ADDR < LIFU_CFG_PAGE_END
  /\ fst r = HAL_TIMEOUT
  /\ script (snd r) = [HAL_BUSY].
Proof.
  cbv zeta.
  assert (H : LIFU_CFG_PAGE_ADDR < LIFU_CFG_PAGE_END) by reflexivity.
  split; [exact H|].
  destruct (Flash_Erase_status LIFU_CFG_PAGE_ADDR LIFU_CFG_PAGE_END
              (mkHw (fun _ => 0) [HAL_OK; HAL_TIMEOUT; HAL_BUSY] []) H)
    as [_ H2].
  destruct (H2 HAL_TIMEOUT [HAL_BUSY] eq_refl) as (Hs & Hr & _).
  split; [exact Hs | exact Hr].
Defined.

(* ------------------------------------------------------------------ *)
(** ** Programming *)

Lemma byte_of_of_le (bs : list Z) (i : nat) :
  Forall is_byte bs -> (i < length bs)%nat ->
  byte_of (of_le bs) (Z.of_nat i) = nth i bs 0.
Proof.
  intros Hb. revert i. induction Hb as [|b bs Hb0 Hb IH]; intros i Hi;
    cbn [length] in Hi; [lia|].
  unfold is_byte in Hb0. cbn [of_le]. destruct i as [|i].
  - unfold byte_of. cbn [Z.of_nat nth]. change (2 ^ (8 * 0)) with 1.
    rewrite Z.div_1_r.
    replace (b + 256 * of_le bs) with (b + of_le bs * 256) by lia.
    rewrite Z_mod_plus_full. apply Z.mod_small. lia.
  - cbn [nth]. rewrite <- (IH i) by lia. unfold byte_of.
    replace (8 * Z.of_nat (S i)) with (8 + 8 * Z.of_nat i) by lia.
    rewrite Z.pow_add_r by lia. change (2 ^ 8) with 256.
    rewrite <- Z.div_div by lia.
    replace ((b + 256 * of_le bs) / 256) with (of_le bs); [reflexivity|].
    apply Z.div_unique with (r := b); lia.
Qed.

Lemma land_ff_byte (b : Z) : is_byte b -> Z.land 0xFF b = b.
Proof.
  intros Hb. rewrite Z.land_comm. change 0xFF with (Z.ones 8).
  rewrite Z.land_ones by lia. apply Z.mod_small. exact Hb.
Qed.

Lemma nth_is_byte (bs : list Z) (i : nat) :
  Forall is_byte bs -> is_byte (nth i bs 0).
Proof.
  intros Hb. destruct (Nat.lt_ge_cases i (length bs)) as [Hi | Hi].
  - apply Forall_nth; assumption.
  - rewrite nth_overflow by lia. unfold is_byte. lia.
Qed.

(** Programming eight bytes over an erased doubleword stores them. *)
Lemma programmed_over_erased (addr : Z) (bs : list Z) (f : Z -> Z) (a : Z) :
  length bs = 8%nat -> Forall is_byte bs ->
  (forall x, addr <= x < addr + 8 -> f x = 0xFF) ->
  programmed addr (of_le bs) f a
  = if (addr <=? a) && (a <? addr + 8)
    then nth (Z.to_nat (a - addr)) bs 0 else f a.
Proof.
  intros Hlen Hb Her. unfold programmed.
  destruct (Z.leb_spec addr a); destruct (Z.ltb_spec a (addr + 8));
    cbn [andb]; try reflexivity.
  rewrite Her by lia.
  rewrite <- (Z2Nat.id (a - addr)) at 1 by lia.
  rewrite byte_of_of_le by (assumption || lia).
  apply land_ff_byte, nth_is_byte, Hb.
Qed.

Lemma addresses_nth (a : Z) (n i : nat) :
  (i < n)%nat -> nth i (addresses a n) 0 = a + Z.of_nat i.
Proof.
  intros Hi. unfold addresses.
  set (F := fun k => a + Z.of_nat k).
  rewrite (nth_indep _ 0 (F O))
    by (rewrite length_map, length_seq; exact Hi).
  rewrite (map_nth F), seq_nth by exact Hi. reflexivity.
Qed.

(** Reading a range back gives a list exactly when it agrees pointwise. *)
Lemma read_range (g : Z -> Z) (a : Z) (bs : list Z) :
  (forall i, (i < length bs)%nat -> g (a + Z.of_nat i) = nth i bs 0) ->
  map g (addresses a (length bs)) = bs.
Proof.
  intros H. apply (nth_ext _ _ (g 0) 0).
  - rewrite length_map, addresses_length. reflexivity.
  - intros i Hi. rewrite length_map, addresses_length in Hi.
    rewrite map_nth, addresses_nth by exact Hi. apply H, Hi.
Qed.

Lemma HAL_FLASH_Program_ok (addr dw : Z) (h : hw_t) :
  no_failure h ->
  exists h',
    HAL_FLASH_Program addr dw h = (HAL_OK, h')
    /\ flash h' = programmed addr dw (flash h)
    /\ no_failure h'.
Proof.
  intros Hok. unfold HAL_FLASH_Program.
  destruct (next_status_ok h Hok) as [H1 H2].
  destruct (next_status h) as [st rest]. cbn [fst snd] in *. subst st.
  eexists. split; [reflexivity|]. split; [reflexivity | exact H2].
Qed.

Lemma firstn_bytes (p : list Z) (n m : nat) :
  (forall i, (i < n)%nat -> is_byte (nth i p 0)) -> (m <= n)%nat ->
  Forall is_byte (firstn m p).
Proof.
  intros H Hm. apply Forall_nth. intros i d Hi.
  rewrite length_firstn in Hi.
  rewrite (nth_indep _ d 0) by (rewrite length_firstn; exact Hi).
  rewrite nth_firstn. destruct (Nat.ltb_spec i m); [apply H; lia | lia].
Qed.

(** The loop of [Flash_Write] on an erased range, with no HAL failure: it
    runs to its end, and exactly the [8 * k] bytes it was given are in
    flash. *)
Lemma Flash_Write_loop_ok (k : nat) :
  forall (p : list Z) (addr : Z) (h : hw_t),
  no_failure h ->
  (8 * k <= length p)%nat ->
  (forall i, (i < 8 * k)%nat -> is_byte (nth i p 0)) ->
  (forall a, addr <= a < addr + 8 * Z.of_nat k -> flash h a = 0xFF) ->
  0 <= addr -> addr + 8 * Z.of_nat k < 2 ^ 32 ->
  exists h',
    Flash_Write_loop k p addr h
    = inr (skipn (8 * k) p, addr + 8 * Z.of_nat k, h')
    /\ no_failure h'
    /\ (forall a, flash h' a
                  = if (addr <=? a) && (a <? addr + 8 * Z.of_nat k)
                    then nth (Z.to_nat (a - addr)) p 0 else flash h a)
    /\ exists evs, trace h' = evs ++ trace h
                   /\ length (filter is_program evs) = k
                   /\ filter is_erase evs = [].
Proof.
  induction k as [|k IH]; intros p addr h Hok Hlen Hb Her H0 Hmax.
  - exists h. cbn [Flash_Write_loop]. rewrite Z.add_0_r.
    split; [reflexivity|]. split; [exact Hok|]. split.
    + intros a. repeat case_bound; cbn [andb]; try reflexivity; lia.
    + exists []. repeat split.
  - cbn [Flash_Write_loop]. cbv zeta.
    assert (Hl8 : length (firstn 8 p) = 8%nat)
      by (rewrite length_firstn; lia).
    assert (Hb8 : Forall is_byte (firstn 8 p))
      by (apply (firstn_bytes p (8 * S k)); [exact Hb | lia]).
    destruct (HAL_FLASH_Program_ok addr (of_le (firstn 8 p)) h Hok)
      as (h1 & E1 & Hf1 & Hok1).
    assert (Ht1 : trace h1 = EvProgram addr (of_le (firstn 8 p)) :: trace h).
    { unfold HAL_FLASH_Program in E1. destruct (next_status h).
      injection E1 as _ <-. reflexivity. }
    rewrite E1. cbn [status_eqb negb].
    assert (Hp : forall a, flash h1 a
                 = if (addr <=? a) && (a <? addr + 8)
                   then nth (Z.to_nat (a - addr)) (firstn 8 p) 0
                   else flash h a).
    { intros a. rewrite Hf1. apply programmed_over_erased; try assumption.
      intros x Hx. apply Her. lia. }
    assert (Hrb : read64 h1 addr = of_le (firstn 8 p)).
    { unfold read64. f_equal. rewrite <- Hl8 at 1. apply read_range.
      intros i Hi. rewrite Hl8 in Hi. rewrite Hp.
      repeat case_bound; cbn [andb]; try lia.
      f_equal. lia. }
    rewrite Hrb, Z.eqb_refl. cbn [negb].
    replace (u32 (addr + 8)) with (addr + 8)
      by (unfold u32; rewrite Z.mod_small; lia).
    destruct (IH (skipn 8 p) (addr + 8) h1 Hok1) as (h' & E & Hok' & Hf & Ht).
    + rewrite length_skipn. lia.
    + intros i Hi. rewrite nth_skipn. apply Hb. lia.
    + intros a Ha. rewrite Hp. repeat case_bound; cbn [andb]; try lia.
      apply Her. lia.
    + lia.
    + lia.
    + exists h'. rewrite E, skipn_skipn.
      replace (8 * k + 8)%nat with (8 * S k)%nat by lia.
      replace (addr + 8 + 8 * Z.of_nat k) with (addr + 8 * Z.of_nat (S k))
        by lia.
      split; [reflexivity|]. split; [exact Hok'|]. split.
      * intros a. rewrite Hf, Hp.
        replace (addr + 8 + 8 * Z.of_nat k) with (addr + 8 * Z.of_nat (S k))
          by lia.
        repeat case_bound; cbn [andb]; try lia; try reflexivity.
        -- rewrite nth_skipn. f_equal. lia.
        -- rewrite nth_firstn.
           destruct (Nat.ltb_spec (Z.to_nat (a - addr)) 8); [reflexivity | lia].
      * destruct Ht as (evs & Ht & Hn & He).
        exists (evs ++ [EvProgram addr (of_le (firstn 8 p))]).
        rewrite Ht, Ht1, <- app_assoc. split; [reflexivity|].
        rewrite !filter_app, length_app, Hn, He. cbn. split; [lia | reflexivity].
Qed.

(** One doubleword programmed over an erased one, with no HAL failure:
    the read-back check passes and the eight bytes are in flash. *)
Lemma program_and_verify (addr : Z) (bs : list Z) (h : hw_t) :
  no_failure h -> length bs = 8%nat -> Forall is_byte bs ->
  (forall a, addr <= a < addr + 8 -> flash h a = 0xFF) ->
  exists h1,
    HAL_FLASH_Program addr (of_le bs) h = (HAL_OK, h1)
    /\ read64 h1 addr = of_le bs
    /\ (forall a, flash h1 a
                  = if (addr <=? a) && (a <? addr + 8)
                    then nth (Z.to_nat (a - addr)) bs 0 else flash h a)
    /\ no_failure h1
    /\ trace h1 = EvProgram addr (of_le bs) :: trace h.
Proof.
  intros Hok Hl Hb Her.
  destruct (HAL_FLASH_Program_ok addr (of_le bs) h Hok) as (h1 & E1 & Hf1 & Hok1).
  exists h1.
  assert (Hp : forall a, flash h1 a
               = if (addr <=? a) && (a <? addr + 8)
                 then nth (Z.to_nat (a - addr)) bs 0 else flash h a).
  { intros a. rewrite Hf1. apply programmed_over_erased; assumption. }
  split; [exact E1|]. split; [| split; [exact Hp | split; [exact Hok1|]]].
  - unfold read64. f_equal. rewrite <- Hl at 1. apply read_range.
    intros i Hi. rewrite Hl in Hi. rewrite Hp.
    repeat case_bound; cbn [andb]; try lia. f_equal. lia.
  - unfold HAL_FLASH_Program in E1. destruct (next_status h).
    injection E1 as _ <-. reflexivity.
Qed.

Lemma round_up8_cases (size : Z) :
  round_up8 size
  = if size mod 8 =? 0 then 8 * (size / 8) else 8 * (size / 8) + 8.
Proof.
  unfold round_up8.
  pose proof (Z.div_mod size 8 ltac:(lia)) as Hdm.
  pose proof (Z.mod_pos_bound size 8 ltac:(lia)) as Hb.
  destruct (Z.eqb_spec (size mod 8) 0) as [E | E].
  - f_equal. symmetry. apply Z.div_unique with (r := 7); lia.
  - replace (8 * (size / 8) + 8) with (8 * (size / 8 + 1)) by lia.
    f_equal. symmetry.
    apply Z.div_unique with (r := size mod 8 - 1); lia.
Qed.

(** The padded last doubleword of [Flash_Write]: [t] bytes of data followed
    by erased-state bytes. *)
Lemma tail_doubleword (p : list Z) (t : nat) :
  (t <= 8)%nat -> (t <= length p)%nat ->
  (forall i, (i < t)%nat -> is_byte (nth i p 0)) ->
  let tmp := memcpy (repeat 0xFF 8) p t in
  length tmp = 8%nat
  /\ Forall is_byte tmp
  /\ (forall i, (i < 8)%nat ->
        nth i tmp 0 = if (i <? t)%nat then nth i p 0 else 0xFF).
Proof.
  intros Ht Hl Hb. cbv zeta. unfold memcpy.
  assert (Hlen : length (firstn t p ++ skipn t (repeat 0xFF 8)) = 8%nat).
  { rewrite length_app, length_firstn, length_skipn, repeat_length. lia. }
  assert (Hn : forall i, (i < 8)%nat ->
             nth i (firstn t p ++ skipn t (repeat 0xFF 8)) 0
             = if (i <? t)%nat then nth i p 0 else 0xFF).
  { intros i Hi. destruct (Nat.ltb_spec i t) as [Hit | Hit].
    - rewrite app_nth1 by (rewrite length_firstn; lia).
      rewrite nth_firstn. destruct (Nat.ltb_spec i t); [reflexivity | lia].
    - rewrite app_nth2 by (rewrite length_firstn; lia).
      rewrite length_firstn, nth_skipn. apply nth_repeat_lt. lia. }
  split; [exact Hlen|]. split; [| exact Hn].
  apply Forall_nth. intros i d Hi. rewrite Hlen in Hi.
  rewrite (nth_indep _ d 0) by (rewrite Hlen; exact Hi).
  rewrite Hn by exact Hi.
  destruct (Nat.ltb_spec i t); [apply Hb; assumption | unfold is_byte; lia].
Qed.

(** [Flash_Write] on an erased, aligned range, with no HAL failure. *)
Lemma Flash_Write_ok (address : Z) (src : list Z) (size_bytes : Z) (h : hw_t) :
  address mod 8 = 0 -> 0 <= address ->
  address + round_up8 size_bytes < 2 ^ 32 ->
  0 < size_bytes -> size_bytes <= Z.of_nat (length src) ->
  Forall is_byte (firstn (Z.to_nat size_bytes) src) ->
  no_failure h ->
  (forall a, address <= a < address + round_up8 size_bytes ->
             flash h a = 0xFF) ->
  exists h',
    Flash_Write address src size_bytes h = (HAL_OK, h')
    /\ no_failure h'
    /\ (forall a, flash h' a
          = if (address <=? a) && (a <? address + size_bytes)
            then nth (Z.to_nat (a - address)) src 0
            else if (address <=? a) && (a <? address + round_up8 size_bytes)
                 then 0xFF else flash h a)
    /\ exists evs,
         trace h' = EvLock :: evs ++ EvClearErrors :: EvUnlock :: trace h
         /\ length (filter is_program evs)
            = Z.to_nat (round_up8 size_bytes / 8)
         /\ filter is_erase evs = [].
Proof.
  intros Hal H0 Hmax Hpos Hlen Hbytes Hok Her.
  pose proof (Z.div_mod size_bytes 8 ltac:(lia)) as Hdm.
  pose proof (Z.mod_pos_bound size_bytes 8 ltac:(lia)) as Hmb.
  pose proof (round_up8_cases size_bytes) as Hru.
  assert (Hq : 0 <= size_bytes / 8) by (apply Z.div_pos; lia).
  assert (Hb : forall i, (i < Z.to_nat size_bytes)%nat -> is_byte (nth i src 0)).
  { intros i Hi.
    assert (Hi' : (i < length (firstn (Z.to_nat size_bytes) src))%nat)
      by (rewrite length_firstn; lia).
    pose proof (proj1 (Forall_nth _ _) Hbytes i 0 Hi') as Hn.
    rewrite nth_firstn in Hn.
    destruct (Nat.ltb_spec i (Z.to_nat size_bytes)); [exact Hn | lia]. }
  unfold Flash_Write.
  destruct (Z.eqb_spec size_bytes 0); [lia|].
  rewrite land7_mod8, Hal, Z.eqb_refl. cbn [negb].
  unfold HAL_FLASH_Unlock.
  destruct (next_status_ok h Hok) as [H1 H1'].
  destruct (next_status h) as [st rest]. cbn [fst snd] in H1, H1'. subst st.
  cbn [status_eqb negb]. unfold Flash_ClearErrors, log.
  cbn [flash script trace].
  set (h2 := mkHw (flash h) rest (EvClearErrors :: EvUnlock :: trace h)).
  assert (Hok2 : no_failure h2) by exact H1'.
  set (k := Z.to_nat (size_bytes / 8)).
  assert (Hk : Z.of_nat k = size_bytes / 8) by (unfold k; lia).
  destruct (Flash_Write_loop_ok k src address h2 Hok2)
    as (h3 & E3 & Hok3 & Hf3 & evs & Ht3 & Hn3 & He3).
  { lia. }
  { intros i Hi. apply Hb. lia. }
  { intros a Ha. apply Her. destruct (size_bytes mod 8 =? 0); lia. }
  { exact H0. }
  { destruct (size_bytes mod 8 =? 0); lia. }
  rewrite E3.
  destruct (Z.ltb_spec 0 (size_bytes mod 8)) as [Ht | Ht].
  - (* a last, padded doubleword *)
    destruct (Z.eqb_spec (size_bytes mod 8) 0) as [E0 | E0]; [lia|].
    destruct (tail_doubleword (skipn (8 * k) src) (Z.to_nat (size_bytes mod 8)))
      as (Hl8 & Hb8 & Hn8).
    { lia. }
    { rewrite length_skipn. lia. }
    { intros i Hi. rewrite nth_skipn. apply Hb. lia. }
    cbv zeta in Hl8, Hb8, Hn8.
    destruct (program_and_verify (address + 8 * Z.of_nat k) _ h3 Hok3 Hl8 Hb8)
      as (h4 & E4 & Hrb & Hf4 & Hok4 & Ht4).
    { intros a Ha. rewrite Hf3. repeat case_bound; cbn [andb]; try lia.
      apply Her. lia. }
    rewrite E4. cbn [status_eqb negb]. rewrite Hrb, Z.eqb_refl. cbn [negb].
    eexists. split; [reflexivity|].
    unfold HAL_FLASH_Lock, log. cbn [flash script trace].
    split; [exact Hok4|]. split.
    + intros a. rewrite Hf4, Hf3. rewrite Hru.
      repeat case_bound; cbn [andb]; try lia; try reflexivity.
      * rewrite Hn8 by lia.
        destruct (Nat.ltb_spec (Z.to_nat (a - (address + 8 * Z.of_nat k)))
                    (Z.to_nat (size_bytes mod 8))); [| lia].
        rewrite nth_skipn. f_equal. lia.
      * rewrite Hn8 by lia.
        destruct (Nat.ltb_spec (Z.to_nat (a - (address + 8 * Z.of_nat k)))
                    (Z.to_nat (size_bytes mod 8))); [lia | reflexivity].
    + eexists (_ :: evs). rewrite Ht4, Ht3. split; [reflexivity|].
      cbn [filter is_program is_erase length]. rewrite Hn3, He3, Hru.
      split; [| reflexivity].
      replace (8 * (size_bytes / 8) + 8) with ((size_bytes / 8 + 1) * 8) by lia.
      rewrite Z.div_mul by lia. lia.
  - (* the size is a multiple of 8 *)
    assert (E0 : size_bytes mod 8 = 0) by lia.
    rewrite E0, Z.eqb_refl in Hru.
    eexists. split; [reflexivity|].
    unfold HAL_FLASH_Lock, log. cbn [flash script trace].
    split; [exact Hok3|]. split.
    + intros a. rewrite Hf3, Hru.
      repeat case_bound; cbn [andb]; try lia; reflexivity.
    + exists evs. rewrite Ht3. split; [reflexivity|].
      rewrite Hn3, He3, Hru. split; [| reflexivity].
      rewrite Z.mul_comm, Z.div_mul by lia. reflexivity.
Qed.

Lemma Flash_Write_read_ok
  (address : Z) (src : list Z) (size_bytes : Z) (h : hw_t) :
  address mod 8 = 0 -> 0 <= address ->
  address + round_up8 size_bytes < 2 ^ 32 ->
  0 < size_bytes -> size_bytes <= Z.of_nat (length src) ->
  Forall is_byte (firstn (Z.to_nat size_bytes) src) ->
  no_failure h ->
  (forall a, address <= a < address + round_up8 size_bytes ->
             flash h a = 0xFF) ->
  let r := Flash_Write address src size_bytes h in
  fst r = HAL_OK
  /\ Flash_Read address size_bytes (snd r)
     = (HAL_OK, firstn (Z.to_nat size_bytes) src,
        log (EvRead address size_bytes) (snd r))
  /\ (forall a, address + size_bytes <= a < address + round_up8 size_bytes ->
                flash (snd r) a = 0xFF)
  /\ (forall a, a < address \/ address + round_up8 size_bytes <= a ->
                flash (snd r) a = flash h a)
  /\ length (filter is_program (trace (snd r)))
     = (length (filter is_program (trace h))
        + Z.to_nat (round_up8 size_bytes / 8))%nat
  /\ hd EvUnlock (trace (snd r)) = EvLock.
Proof.
  intros Hal H0 Hmax Hpos Hlen Hbytes Hok Her. cbv zeta.
  destruct (Flash_Write_ok address src size_bytes h Hal H0 Hmax Hpos Hlen
              Hbytes Hok Her)
    as (h' & E & Hok' & Hf & evs & Ht & Hn & He).
  pose proof (round_up8_cases size_bytes) as Hru.
  pose proof (Z.mod_pos_bound size_bytes 8 ltac:(lia)) as Hmb.
  pose proof (Z.div_mod size_bytes 8 ltac:(lia)) as Hdm.
  assert (Hge : size_bytes <= round_up8 size_bytes)
    by (destruct (size_bytes mod 8 =? 0) eqn:E0;
        [apply Z.eqb_eq in E0 |]; lia).
  rewrite E. cbn [fst snd].
  split; [reflexivity|]. split; [| split; [| split; [| split]]].
  - unfold Flash_Read. f_equal. f_equal.
    assert (Hl : length (firstn (Z.to_nat size_bytes) src)
                 = Z.to_nat size_bytes) by (rewrite length_firstn; lia).
    rewrite <- Hl at 1. apply read_range. intros i Hi. rewrite Hl in Hi.
    rewrite Hf. repeat case_bound; cbn [andb]; try lia.
    rewrite nth_firstn.
    destruct (Nat.ltb_spec i (Z.to_nat size_bytes)); [f_equal; lia | lia].
  - intros a Ha. rewrite Hf.
    repeat case_bound; cbn [andb]; try lia; reflexivity.
  - intros a Ha. rewrite Hf.
    repeat case_bound; cbn [andb]; try lia; reflexivity.
  - rewrite Ht. cbn [filter is_program]. rewrite filter_app, length_app, Hn.
    cbn [filter is_program]. lia.
  - rewrite Ht. reflexivity.
Qed.

(** X5: on an aligned range that is erased, and when the HAL reports no
    failure, [Flash_Write] returns [HAL_OK] and a [Flash_Read] of the same
    range gives back the bytes written; the rest of the last doubleword
    reads 0xFF, no byte outside the doublewords of the range has changed,
    one doubleword program was issued per started 8 bytes, and the
    peripheral is locked again. *)
Theorem Flash_Write_then_read
  (address : Z) (src : list Z) (size_bytes : Z) (h : hw_t) :
  address mod 8 = 0 -> 0 <= address ->
  address + round_up8 size_bytes < 2 ^ 32 ->
  0 < size_bytes -> size_bytes <= Z.of_nat (length src) ->
  Forall is_byte (firstn (Z.to_nat size_bytes) src) ->
  no_failure h ->
  (forall a, address <= a < address + round_up8 size_bytes ->
             flash h a = 0xFF) ->
  let r := Flash_Write address src size_bytes h in
  fst r = HAL_OK
  /\ Flash_Read address size_bytes (snd r)
     = (HAL_OK, firstn (Z.to_nat size_bytes) src,
        log (EvRead address size_bytes) (snd r))
  /\ (forall a, address + size_bytes <= a < address + round_up8 size_bytes ->
                flash (snd r) a = 0xFF)
  /\ (forall a, a < address \/ address + round_up8 size_bytes <= a ->
                flash (snd r) a = flash h a)
  /\ length (filter is_program (trace (snd r)))
     = (length (filter is_program (trace h))
        + Z.to_nat (round_up8 size_bytes / 8))%nat
  /\ hd EvUnlock (trace (snd r)) = EvLock.
Proof. exact (Flash_Write_read_ok address src size_bytes h). Qed.

Lemma Flash_Write_then_read_witness :
  let src := [1; 2; 3; 4; 5; 6; 7; 8; 9; 10; 11] in
  let r := Flash_Write 0x0803F800 src 11 hw_blank in
  0x0803F800 mod 8 = 0
  /\ fst r = HAL_OK
  /\ snd (fst (Flash_Read 0x0803F800 11 (snd r))) = src
  /\ flash (snd r) 0x0803F80B = 0xFF
  /\ length (filter is_program (trace (snd r))) = 2%nat.
Proof.
  cbv zeta.
  assert (Hal : 0x0803F800 mod 8 = 0) by reflexivity.
  destruct (Flash_Write_then_read 0x0803F800
              [1; 2; 3; 4; 5; 6; 7; 8; 9; 10; 11] 11 hw_blank)
    as (H1 & H2 & H3 & _ & H5 & _).
  - exact Hal.
  - lia.
  - vm_compute. reflexivity.
  - lia.
  - vm_compute. discriminate.
  - repeat constructor; unfold is_byte; lia.
  - constructor.
  - intros a _. reflexivity.
  - split; [exact Hal|]. split; [exact H1|].
    split; [rewrite H2; reflexivity|].
    split; [apply H3; vm_compute; split; [discriminate | reflexivity]|].
    rewrite H5. reflexivity.
Defined.

(** A doubleword program, whatever the HAL reports, changes no byte
    outside its eight. *)
Lemma HAL_FLASH_Program_frame (addr dw : Z) (h : hw_t) (a : Z) :
  a < addr \/ addr + 8 <= a ->
  flash (snd (HAL_FLASH_Program addr dw h)) a = flash h a.
Proof.
  intros Ha. unfold HAL_FLASH_Program.
  destruct (next_status h) as [st rest]. cbn [snd flash].
  destruct st; try reflexivity.
  unfold programmed. repeat case_bound; cbn [andb]; try reflexivity; lia.
Qed.

Lemma Flash_Write_loop_frame (k : nat) :
  forall (p : list Z) (addr : Z) (h : hw_t) (a : Z),
  0 <= addr -> addr + 8 * Z.of_nat k < 2 ^ 32 ->
  a < addr \/ addr + 8 * Z.of_nat k <= a ->
  match Flash_Write_loop k p addr h with
  | inl (_, h') => flash h' a = flash h a /\ hd EvUnlock (trace h') = EvLock
  | inr (_, addr', h') =>
      flash h' a = flash h a /\ addr' = addr + 8 * Z.of_nat k
  end.
Proof.
  induction k as [|k IH]; intros p addr h a H0 Hmax Ha.
  - cbn [Flash_Write_loop]. split; [reflexivity | lia].
  - cbn [Flash_Write_loop]. cbv zeta.
    pose proof (HAL_FLASH_Program_frame addr (of_le (firstn 8 p)) h a
                  ltac:(lia)) as Hfr.
    destruct (HAL_FLASH_Program addr (of_le (firstn 8 p)) h) as [st h1].
    cbn [snd] in Hfr.
    destruct (negb (status_eqb st HAL_OK)); [split; [exact Hfr | reflexivity]|].
    destruct (negb (read64 h1 addr =? of_le (firstn 8 p)));
      [split; [exact Hfr | reflexivity]|].
    replace (u32 (addr + 8)) with (addr + 8)
      by (unfold u32; rewrite Z.mod_small; lia).
    specialize (IH (skipn 8 p) (addr + 8) h1 a ltac:(lia) ltac:(lia) ltac:(lia)).
    destruct (Flash_Write_loop k (skipn 8 p) (addr + 8) h1) as [[st' h'] | [[p' addr'] h']].
    + destruct IH as [IH1 IH2]. split; [congruence | exact IH2].
    + destruct IH as [IH1 IH2]. split; [congruence | lia].
Qed.

(** X6: whatever the HAL reports and whatever status [Flash_Write]
    returns, no byte of flash outside the doublewords of the requested
    range is changed. *)
Theorem Flash_Write_frame
  (address : Z) (src : list Z) (size_bytes : Z) (h : hw_t) (a : Z) :
  0 <= address -> 0 <= size_bytes ->
  address + round_up8 size_bytes < 2 ^ 32 ->
  a < address \/ address + round_up8 size_bytes <= a ->
  flash (snd (Flash_Write address src size_bytes h)) a = flash h a.
Proof.
  intros H0 Hs Hmax Ha. unfold Flash_Write.
  destruct (size_bytes =? 0); [reflexivity|].
  destruct (negb (Z.land address 7 =? 0)); [reflexivity|].
  unfold HAL_FLASH_Unlock. destruct (next_status h) as [st rest].
  destruct (negb (status_eqb st HAL_OK)); [reflexivity|].
  unfold Flash_ClearErrors, log. cbn [flash script trace].
  pose proof (round_up8_cases size_bytes) as Hru.
  pose proof (Z.mod_pos_bound size_bytes 8 ltac:(lia)) as Hmb.
  assert (Hq : 0 <= size_bytes / 8) by (apply Z.div_pos; lia).
  set (h2 := mkHw (flash h) rest (EvClearErrors :: EvUnlock :: trace h)).
  assert (Hk : Z.of_nat (Z.to_nat (size_bytes / 8)) = size_bytes / 8) by lia.
  pose proof (Flash_Write_loop_frame (Z.to_nat (size_bytes / 8)) src address
                h2 a H0) as Hl.
  rewrite Hk in Hl.
  assert (Hle : 8 * (size_bytes / 8) <= round_up8 size_bytes)
    by (rewrite Hru; destruct (size_bytes mod 8 =? 0); lia).
  specialize (Hl ltac:(lia) ltac:(lia)).
  destruct (Flash_Write_loop _ src address h2) as [[st' h'] | [[p' addr'] h']].
  - cbn [snd]. exact (proj1 Hl).
  - destruct Hl as [Hl1 Hl2]. subst addr'.
    destruct (Z.ltb_spec 0 (size_bytes mod 8)) as [Ht | Ht].
    + destruct (Z.eqb_spec (size_bytes mod 8) 0) as [E0 | E0]; [lia|].
      cbv zeta.
      match goal with
      | |- context [HAL_FLASH_Program ?x ?d ?hh] =>
          pose proof (HAL_FLASH_Program_frame x d hh a ltac:(lia)) as Hfr;
          destruct (HAL_FLASH_Program x d hh) as [st4 h4]
      end.
      cbn [snd] in Hfr.
      destruct (negb (status_eqb st4 HAL_OK)); cbn [snd HAL_FLASH_Lock log flash];
        [rewrite Hfr; exact Hl1|].
      match goal with
      | |- context [negb ?c] => destruct (negb c)
      end; cbn [snd HAL_FLASH_Lock log flash]; rewrite Hfr; exact Hl1.
    + cbn [snd HAL_FLASH_Lock log flash]. exact Hl1.
Qed.

Lemma Flash_Write_frame_witness :
  let h := mkHw (fun a => a mod 256) [HAL_OK; HAL_OK; HAL_ERROR] [] in
  let r := Flash_Write 0x0803F800 (repeat 0 20) 20 h in
  fst r = HAL_ERROR
  /\ flash (snd r) 0x0803F7FF = flash h 0x0803F7FF
  /\ flash (snd r) 0x0803F818 = flash h 0x0803F818.
Proof.
  cbv zeta. split; [vm_compute; reflexivity|].
  split; apply Flash_Write_frame; vm_compute;
    try discriminate; try reflexivity.
  - left. reflexivity.
  - right. discriminate.
Defined.

Lemma Flash_Write_loop_early (k : nat) :
  forall (p : list Z) (addr : Z) (h : hw_t),
  match Flash_Write_loop k p addr h with
  | inl (st, h') => st <> HAL_OK /\ hd EvUnlock (trace h') = EvLock
  | inr _ => True
  end.
Proof.
  induction k as [|k IH]; intros p addr h; cbn [Flash_Write_loop]; [exact I|].
  cbv zeta. destruct (HAL_FLASH_Program addr (of_le (firstn 8 p)) h) as [st h1].
  destruct st; cbn [status_eqb negb];
    try (split; [discriminate | reflexivity]).
  destruct (negb (read64 h1 addr =? of_le (firstn 8 p)));
    [split; [discriminate | reflexivity] | apply IH].
Qed.

(** X7: past its two argument checks, [Flash_Write] returns the unlock's
    status, with nothing programmed or locked, when the unlock fails; when
    the unlock succeeds, the peripheral is locked again on every return
    path, whether the programs succeeded, a program failed or a read-back
    check failed. *)
Theorem Flash_Write_locks_on_exit
  (address : Z) (src : list Z) (size_bytes : Z) (h : hw_t) :
  size_bytes <> 0 -> address mod 8 = 0 ->
  (forall s rest, script h = s :: rest -> s <> HAL_OK ->
     Flash_Write address src size_bytes h
     = (s, mkHw (flash h) rest (EvUnlock :: trace h)))
  /\ (fst (next_status h) = HAL_OK ->
      hd EvUnlock (trace (snd (Flash_Write address src size_bytes h)))
      = EvLock).
Proof.
  intros Hs Hal. unfold Flash_Write.
  destruct (Z.eqb_spec size_bytes 0); [contradiction|].
  rewrite land7_mod8, Hal, Z.eqb_refl. cbn [negb].
  unfold HAL_FLASH_Unlock. split.
  - intros s rest E Hne. unfold next_status. rewrite E.
    destruct s; try reflexivity. contradiction.
  - intros Hok. destruct (next_status h) as [st rest]. cbn [fst] in Hok.
    subst st. cbn [status_eqb negb].
    match goal with
    | |- context [Flash_Write_loop ?k ?p ?a ?hh] =>
        pose proof (Flash_Write_loop_early k p a hh) as Hl;
        destruct (Flash_Write_loop k p a hh) as [[st' h'] | [[p' addr'] h']]
    end.
    + exact (proj2 Hl).
    + destruct (0 <? size_bytes mod 8); [| reflexivity].
      cbv zeta.
      match goal with
      | |- context [HAL_FLASH_Program ?x ?d ?hh] =>
          destruct (HAL_FLASH_Program x d hh) as [st4 h4]
      end.
      destruct (negb (status_eqb st4 HAL_OK)); [reflexivity|].
      match goal with
      | |- context [negb ?c] => destruct (negb c)
      end; reflexivity.
Qed.

Lemma Flash_Write_locks_on_exit_witness :
  let h := mkHw (fun _ => 0xFF) [HAL_OK; HAL_OK; HAL_TIMEOUT] [] in
  let r := Flash_Write 0x0803F800 (repeat 0 24) 24 h in
  24 <> 0 /\ 0x0803F800 mod 8 = 0
  /\ fst r = HAL_TIMEOUT
  /\ hd EvUnlock (trace (snd r)) = EvLock.
Proof.
  cbv zeta.
  assert (H1 : 24 <> 0) by discriminate.
  assert (H2 : 0x0803F800 mod 8 = 0) by reflexivity.
  split; [exact H1|]. split; [exact H2|].
  split; [vm_compute; reflexivity|].
  apply (Flash_Write_locks_on_exit 0x0803F800 (repeat 0 24) 24 _ H1 H2).
  reflexivity.
Defined.

Lemma land_byte_r (x b : Z) : is_byte b -> is_byte (Z.land x b).
Proof.
  intros Hb. unfold is_byte in *.
  assert (E : Z.land x b = Z.land x b mod 2 ^ 8).
  { rewrite <- Z.land_ones by lia. rewrite <- Z.land_assoc.
    rewrite (Z.land_ones b) by lia. rewrite (Z.mod_small b) by lia.
    reflexivity. }
  rewrite E. apply Z.mod_pos_bound. lia.
Qed.

Lemma byte_of_is_byte (x i : Z) : is_byte (byte_of x i).
Proof. unfold is_byte, byte_of. apply Z.mod_pos_bound. lia. Qed.

(** X8: when the first doubleword of the destination holds a byte whose
    cleared bits the data needs set (the destination was not erased), the
    read-back check of [Flash_Write] catches it: the call returns
    [HAL_ERROR] after that single program and locks the peripheral, even
    though the HAL reported no failure. *)
Theorem Flash_Write_verify_failure
  (address : Z) (src : list Z) (size_bytes : Z) (h : hw_t) (i : nat) :
  address mod 8 = 0 -> 8 <= size_bytes -> (8 <= length src)%nat ->
  Forall is_byte (firstn 8 src) ->
  no_failure h ->
  (i < 8)%nat ->
  Z.land (flash h (address + Z.of_nat i)) (nth i src 0) <> nth i src 0 ->
  let r := Flash_Write address src size_bytes h in
  fst r = HAL_ERROR
  /\ trace (snd r)
     = EvLock :: EvProgram address (of_le (firstn 8 src))
         :: EvClearErrors :: EvUnlock :: trace h.
Proof.
  intros Hal Hs Hlen Hb Hok Hi Hbad. cbv zeta. unfold Flash_Write.
  destruct (Z.eqb_spec size_bytes 0); [lia|].
  rewrite land7_mod8, Hal, Z.eqb_refl. cbn [negb].
  unfold HAL_FLASH_Unlock.
  destruct (next_status_ok h Hok) as [H1 H1'].
  destruct (next_status h) as [st rest]. cbn [fst snd] in H1, H1'. subst st.
  cbn [status_eqb negb]. unfold Flash_ClearErrors, log.
  cbn [flash script trace].
  assert (Hk : exists k, Z.to_nat (size_bytes / 8) = S k).
  { exists (Z.to_nat (size_bytes / 8) - 1)%nat.
    assert (1 <= size_bytes / 8) by (apply Z.div_le_lower_bound; lia). lia. }
  destruct Hk as [k ->]. cbn [Flash_Write_loop]. cbv zeta.
  set (h2 := mkHw (flash h) rest (EvClearErrors :: EvUnlock :: trace h)).
  destruct (HAL_FLASH_Program_ok address (of_le (firstn 8 src)) h2 H1')
    as (h1 & E1 & Hf1 & Hok1).
  assert (Ht1 : trace h1
                = EvProgram address (of_le (firstn 8 src)) :: trace h2).
  { unfold HAL_FLASH_Program in E1. destruct (next_status h2).
    injection E1 as _ <-. reflexivity. }
  rewrite E1. cbn [status_eqb negb].
  assert (Hl8 : length (firstn 8 src) = 8%nat) by (rewrite length_firstn; lia).
  assert (Hne : read64 h1 address <> of_le (firstn 8 src)).
  { unfold read64. intros Heq.
    set (l1 := map (flash h1) (addresses address 8)) in Heq.
    assert (Hl1 : length l1 = 8%nat)
      by (unfold l1; rewrite length_map, addresses_length; reflexivity).
    assert (Hn1 : forall j, (j < 8)%nat ->
              nth j l1 0 = Z.land (flash h (address + Z.of_nat j))
                                  (nth j src 0)).
    { intros j Hj. unfold l1.
      rewrite (nth_indep _ 0 (flash h1 0))
        by (rewrite length_map, addresses_length; exact Hj).
      rewrite map_nth, addresses_nth by exact Hj.
      rewrite Hf1. unfold programmed.
      repeat case_bound; cbn [andb]; try lia.
      replace (address + Z.of_nat j - address) with (Z.of_nat j) by lia.
      rewrite byte_of_of_le by (assumption || lia).
      rewrite nth_firstn. destruct (Nat.ltb_spec j 8); [reflexivity | lia]. }
    assert (Hb1 : Forall is_byte l1).
    { apply Forall_nth. intros j d Hj. rewrite Hl1 in Hj.
      rewrite (nth_indep _ d 0) by (rewrite Hl1; exact Hj).
      rewrite Hn1 by exact Hj. apply land_byte_r.
      pose proof (nth_is_byte (firstn 8 src) j Hb) as Hx.
      rewrite nth_firstn in Hx. destruct (Nat.ltb_spec j 8); [exact Hx | lia]. }
    apply Hbad. rewrite <- Hn1 by exact Hi.
    rewrite <- (byte_of_of_le l1 i Hb1) by lia.
    rewrite Heq, byte_of_of_le by (assumption || lia).
    rewrite nth_firstn. destruct (Nat.ltb_spec i 8); [reflexivity | lia]. }
  destruct (Z.eqb_spec (read64 h1 address) (of_le (firstn 8 src)));
    [contradiction|].
  cbn [negb fst snd]. split; [reflexivity|].
  unfold HAL_FLASH_Lock, log. cbn [trace]. rewrite Ht1. reflexivity.
Qed.

Lemma Flash_Write_verify_failure_witness :
  let h := mkHw (fun _ => 0x0F) [] [] in
  let r := Flash_Write 0x0803F800 (repeat 0xF0 8) 8 h in
  Z.land (flash h (0x0803F800 + Z.of_nat 0)) (nth 0 (repeat 0xF0 8) 0)
    <> nth 0 (repeat 0xF0 8) 0
  /\ fst r = HAL_ERROR.
Proof.
  cbv zeta.
  assert (Hbad : Z.land (flash (mkHw (fun _ => 0x0F) [] [])
                           (0x0803F800 + Z.of_nat 0))
                        (nth 0 (repeat 0xF0 8) 0)
                 <> nth 0 (repeat 0xF0 8) 0)
    by (vm_compute; discriminate).
  split; [exact Hbad|].
  apply (Flash_Write_verify_failure 0x0803F800 (repeat 0xF0 8) 8
           (mkHw (fun _ => 0x0F) [] []) 0).
  - reflexivity.
  - lia.
  - cbn. lia.
  - repeat constructor; unfold is_byte; lia.
  - constructor.
  - lia.
  - exact Hbad.
Defined.

(* ------------------------------------------------------------------ *)
(** * Further properties of the checksum *)

Lemma u16_range (x : Z) : 0 <= u16 x < 2 ^ 16.
Proof. unfold u16. apply Z.mod_pos_bound. lia. Qed.

Lemma crc16_round_range (c : Z) : 0 <= crc16_round c < 2 ^ 16.
Proof.
  unfold crc16_round. destruct (negb _); apply u16_range.
Qed.

Lemma crc16_byte_range (c d : Z) : 0 <= crc16_byte c d < 2 ^ 16.
Proof.
  unfold crc16_byte. cbv zeta.
  change (Nat.iter 8 crc16_round ?x)
    with (crc16_round (Nat.iter 7 crc16_round x)).
  apply crc16_round_range.
Qed.

Lemma crc16_fold_range (data : list Z) (c : Z) :
  0 <= c < 2 ^ 16 -> 0 <= fold_left crc16_byte data c < 2 ^ 16.
Proof.
  revert c. induction data as [|d data IH]; intros c Hc; [exact Hc|].
  cbn [fold_left]. apply IH, crc16_byte_range.
Qed.

Lemma unround_from_spec (n : nat) :
  forall c, unround_from n c = true ->
  forall x, c <= x < c + Z.of_nat n -> crc16_unround (crc16_round x) = x.
Proof.
  induction n as [|n IH]; intros c H x Hx; [lia|].
  cbn [unround_from] in H. apply andb_true_iff in H. destruct H as [H1 H2].
  destruct (Z.eq_dec x c) as [-> | Hne].
  - apply Z.eqb_eq, H1.
  - apply (IH (c + 1)); [exact H2 | lia].
Qed.

Lemma unround_all_states : unround_from (Z.to_nat (2 ^ 16)) 0 = true.
Proof. vm_compute. reflexivity. Qed.

(** One round is injective on 16-bit states. *)
Lemma crc16_round_inj (c1 c2 : Z) :
  0 <= c1 < 2 ^ 16 -> 0 <= c2 < 2 ^ 16 ->
  crc16_round c1 = crc16_round c2 -> c1 = c2.
Proof.
  intros H1 H2 E.
  rewrite <- (unround_from_spec _ 0 unround_all_states c1) by lia.
  rewrite <- (unround_from_spec _ 0 unround_all_states c2) by lia.
  rewrite E. reflexivity.
Qed.

Lemma crc16_rounds_inj (n : nat) (c1 c2 : Z) :
  0 <= c1 < 2 ^ 16 -> 0 <= c2 < 2 ^ 16 ->
  Nat.iter n crc16_round c1 = Nat.iter n crc16_round c2 -> c1 = c2.
Proof.
  intros H1 H2. induction n as [|n IH]; intros E; [exact E|].
  cbn [Nat.iter nat_rect] in E. apply IH.
  assert (R : forall c, 0 <= c < 2 ^ 16 ->
                0 <= Nat.iter n crc16_round c < 2 ^ 16).
  { intros c Hc. destruct n; [exact Hc|]. cbn [Nat.iter nat_rect].
    apply crc16_round_range. }
  apply crc16_round_inj; [apply R | apply R | exact E]; assumption.
Qed.

Lemma land_lxor_distr (a b m : Z) :
  Z.land (Z.lxor a b) m = Z.lxor (Z.land a m) (Z.land b m).
Proof.
  apply Z.bits_inj'. intros n Hn.
  rewrite !Z.land_spec, !Z.lxor_spec, !Z.land_spec.
  destruct (Z.testbit a n), (Z.testbit b n), (Z.testbit m n); reflexivity.
Qed.

Lemma u16_lxor (a b : Z) : u16 (Z.lxor a b) = Z.lxor (u16 a) (u16 b).
Proof.
  unfold u16. rewrite <- !Z.land_ones by lia. apply land_lxor_distr.
Qed.

Lemma lxor_cancel_l (a b c : Z) : Z.lxor a b = Z.lxor a c -> b = c.
Proof.
  intros E. apply Z.lxor_eq.
  replace (Z.lxor b c) with (Z.lxor (Z.lxor a b) (Z.lxor a c)).
  - rewrite E. apply Z.lxor_nilpotent.
  - rewrite Z.lxor_assoc, <- (Z.lxor_assoc b a c), (Z.lxor_comm b a),
      (Z.lxor_assoc a b c), <- Z.lxor_assoc, Z.lxor_nilpotent.
    apply Z.lxor_0_l.
Qed.

(** A step of the checksum is injective in the state, for a fixed byte. *)
Lemma crc16_byte_inj_state (c1 c2 d : Z) :
  0 <= c1 < 2 ^ 16 -> 0 <= c2 < 2 ^ 16 ->
  crc16_byte c1 d = crc16_byte c2 d -> c1 = c2.
Proof.
  intros H1 H2 E. unfold crc16_byte in E. cbv zeta in E.
  apply crc16_rounds_inj in E; try apply u16_range.
  rewrite !u16_lxor in E. rewrite !(Z.lxor_comm _ (u16 (Z.shiftl d 8))) in E.
  apply lxor_cancel_l in E. unfold u16 in E.
  rewrite !Z.mod_small in E by lia. exact E.
Qed.

(** A step of the checksum is injective in the byte, for a fixed state. *)
Lemma crc16_byte_inj_data (c d1 d2 : Z) :
  is_byte d1 -> is_byte d2 ->
  crc16_byte c d1 = crc16_byte c d2 -> d1 = d2.
Proof.
  unfold is_byte. intros H1 H2 E. unfold crc16_byte in E. cbv zeta in E.
  apply crc16_rounds_inj in E; try apply u16_range.
  rewrite !u16_lxor in E. apply lxor_cancel_l in E. unfold u16 in E.
  rewrite !Z.shiftl_mul_pow2 in E by lia. change (2 ^ 8) with 256 in E.
  rewrite !Z.mod_small in E by lia. lia.
Qed.

Lemma crc16_fold_inj (data : list Z) (c1 c2 : Z) :
  0 <= c1 < 2 ^ 16 -> 0 <= c2 < 2 ^ 16 ->
  fold_left crc16_byte data c1 = fold_left crc16_byte data c2 -> c1 = c2.
Proof.
  revert c1 c2. induction data as [|d data IH]; intros c1 c2 H1 H2 E;
    [exact E|].
  cbn [fold_left] in E. apply IH in E; try apply crc16_byte_range.
  exact (crc16_byte_inj_state c1 c2 d H1 H2 E).
Qed.

Lemma crc16_one_byte (pre post : list Z) (d d' : Z) :
  is_byte d -> is_byte d' -> d <> d' ->
  crc16_ccitt (pre ++ d :: post) <> crc16_ccitt (pre ++ d' :: post).
Proof.
  intros Hd Hd' Hne E. unfold crc16_ccitt in E.
  rewrite !fold_left_app in E. cbn [fold_left] in E.
  apply crc16_fold_inj in E; try apply crc16_byte_range.
  apply Hne. exact (crc16_byte_inj_data _ d d' Hd Hd' E).
Qed.

(** X10: the checksum detects every change confined to one byte: two byte
    sequences that differ in exactly one position never have the same
    checksum. *)
Theorem crc16_ccitt_detects_one_byte (pre post : list Z) (d d' : Z) :
  is_byte d -> is_byte d' -> d <> d' ->
  crc16_ccitt (pre ++ d :: post) <> crc16_ccitt (pre ++ d' :: post).
Proof. exact (crc16_one_byte pre post d d'). Qed.

Lemma crc16_ccitt_detects_one_byte_witness :
  is_byte 0x41 /\ is_byte 0x61
  /\ crc16_ccitt ([1; 2] ++ 0x41 :: [3; 4])
     <> crc16_ccitt ([1; 2] ++ 0x61 :: [3; 4]).
Proof.
  assert (H1 : is_byte 0x41) by (unfold is_byte; lia).
  assert (H2 : is_byte 0x61) by (unfold is_byte; lia).
  split; [exact H1|]. split; [exact H2|].
  apply (crc16_ccitt_detects_one_byte [1; 2] [3; 4] 0x41 0x61 H1 H2).
  discriminate.
Defined.

Lemma calc_crc_unfold (cfg : lifu_cfg_t) :
  lifu_cfg_calc_crc cfg
  = crc16_ccitt (firstn (Z.to_nat offsetof_crc) (cfg_bytes cfg)).
Proof. reflexivity. Qed.

Lemma header_bytes_eq (cfg : lifu_cfg_t) :
  firstn (Z.to_nat offsetof_crc) (cfg_bytes cfg)
  = le32 (magic cfg) ++ le32 (version cfg) ++ le32 (seq cfg).
Proof. reflexivity. Qed.

Lemma header_bytes_are_bytes (cfg : lifu_cfg_t) :
  Forall is_byte (firstn (Z.to_nat offsetof_crc) (cfg_bytes cfg)).
Proof.
  rewrite header_bytes_eq.
  unfold le32. repeat constructor; apply byte_of_is_byte.
Qed.

(** X11: if the twelve bytes the checksum covers ([magic], [version],
    [seq]) of a record differ in exactly one byte from those of a valid
    record with the same stored [crc], the record is rejected by
    [lifu_cfg_is_valid]. *)
Theorem header_byte_corruption_rejected
  (cfg cfg' : lifu_cfg_t) (pre post : list Z) (b b' : Z) :
  lifu_cfg_is_valid cfg = true ->
  crc cfg' = crc cfg ->
  firstn (Z.to_nat offsetof_crc) (cfg_bytes cfg) = pre ++ b :: post ->
  firstn (Z.to_nat offsetof_crc) (cfg_bytes cfg') = pre ++ b' :: post ->
  b <> b' ->
  lifu_cfg_is_valid cfg' = false.
Proof.
  intros Hv Hc E E' Hne.
  destruct (lifu_cfg_is_valid cfg') eqn:Hv'; [exfalso | reflexivity].
  apply is_valid_iff in Hv. apply is_valid_iff in Hv'.
  destruct Hv as (_ & _ & _ & Hcrc). destruct Hv' as (_ & _ & _ & Hcrc').
  rewrite calc_crc_unfold, E in Hcrc. rewrite calc_crc_unfold, E' in Hcrc'.
  pose proof (header_bytes_are_bytes cfg) as Hb. rewrite E in Hb.
  pose proof (header_bytes_are_bytes cfg') as Hb'. rewrite E' in Hb'.
  apply Forall_elt in Hb. apply Forall_elt in Hb'.
  apply (crc16_one_byte pre post b b' Hb Hb' Hne).
  rewrite Hcrc, Hcrc'. symmetry. exact Hc.
Qed.

Lemma header_byte_corruption_rejected_witness :
  lifu_cfg_is_valid recovered_cfg = true
  /\ crc (set_seq recovered_cfg 2) = crc recovered_cfg
  /\ lifu_cfg_is_valid (set_seq recovered_cfg 2) = false.
Proof.
  assert (Hv : lifu_cfg_is_valid recovered_cfg = true)
    by (vm_compute; reflexivity).
  split; [exact Hv|]. split; [reflexivity|].
  apply (header_byte_corruption_rejected recovered_cfg
           (set_seq recovered_cfg 2)
           [85; 70; 73; 76; 2; 0; 1; 0] [0; 0; 0] 1 2 Hv).
  - reflexivity.
  - vm_compute. reflexivity.
  - vm_compute. reflexivity.
  - discriminate.
Defined.

(* ------------------------------------------------------------------ *)
(** * Further properties of the configuration store *)

Lemma strnlen_le_length (s : list Z) (n : nat) : (strnlen s n <= length s)%nat.
Proof.
  revert s; induction n as [|n IH]; intros [|c s]; cbn [strnlen length];
    try lia.
  destruct (c =? 0); [lia | specialize (IH s); lia].
Qed.

(** The length of a string is not changed by zero-filling after it. *)
Lemma strnlen_zero_filled (k : nat) :
  forall (j : list Z) (z : nat),
  (0 < z)%nat ->
  strnlen (firstn (strnlen j k) j ++ repeat 0 z) k = strnlen j k.
Proof.
  induction k as [|k IH]; intros j z Hz.
  - destruct j; destruct z; reflexivity.
  - destruct z as [|z]; [lia|].
    destruct j as [|c j]; [reflexivity|].
    cbn [strnlen]. destruct (Z.eqb_spec c 0) as [-> | Hc].
    + reflexivity.
    + cbn [firstn app strnlen]. destruct (Z.eqb_spec c 0); [contradiction|].
      rewrite IH by lia. reflexivity.
Qed.

Lemma normalized_idempotent (j : list Z) :
  length j = Z.to_nat LIFU_CFG_JSON_MAX ->
  normalized (normalized j) = normalized j.
Proof.
  intros Hlen.
  destruct (normalized_shape j Hlen) as [Hl _].
  pose proof (normalized_spec j Hlen) as E. cbv zeta in E.
  pose proof (normalized_spec (normalized j) Hl) as E2. cbv zeta in E2.
  rewrite E2. rewrite E at 1 2 3.
  assert (Hpos : (0 < Z.to_nat LIFU_CFG_JSON_MAX)%nat)
    by (rewrite json_max_nat; lia).
  set (cap := Z.to_nat LIFU_CFG_JSON_MAX) in *.
  set (n := strnlen j (cap - 1)) in *.
  assert (Hn : (n <= cap - 1)%nat) by apply strnlen_le.
  assert (Hs : strnlen (firstn n j ++ repeat 0 (cap - n)) (cap - 1) = n)
    by (apply strnlen_zero_filled; lia).
  rewrite Hs, E. f_equal.
  rewrite firstn_app, length_firstn, firstn_firstn.
  replace (Nat.min n n) with n by lia.
  replace (n - Nat.min n (length j))%nat with 0%nat by lia.
  cbn [firstn]. apply app_nil_r.
Qed.

(** X12: on a record whose payload array has its declared size,
    [lifu_cfg_normalize_json] changes no field but the payload; the payload
    keeps its bytes up to the first NUL (at most the first
    [LIFU_CFG_JSON_MAX - 1]) and is zero from there to the end, so its
    last byte is NUL; normalising a second time changes nothing. *)
Theorem lifu_cfg_normalize_json_spec (cfg : lifu_cfg_t) :
  length (json cfg) = Z.to_nat LIFU_CFG_JSON_MAX ->
  let n := strnlen (json cfg) (Z.to_nat LIFU_CFG_JSON_MAX - 1) in
  lifu_cfg_normalize_json cfg
  = set_json cfg (firstn n (json cfg)
                  ++ repeat 0 (Z.to_nat LIFU_CFG_JSON_MAX - n))
  /\ (n < Z.to_nat LIFU_CFG_JSON_MAX)%nat
  /\ nth_error (json (lifu_cfg_normalize_json cfg))
               (Z.to_nat LIFU_CFG_JSON_MAX - 1) = Some 0
  /\ lifu_cfg_normalize_json (lifu_cfg_normalize_json cfg)
     = lifu_cfg_normalize_json cfg.
Proof.
  intros Hlen. cbv zeta.
  pose proof (normalized_spec (json cfg) Hlen) as E. cbv zeta in E.
  assert (Hpos : (0 < Z.to_nat LIFU_CFG_JSON_MAX)%nat)
    by (rewrite json_max_nat; lia).
  pose proof (strnlen_le (json cfg) (Z.to_nat LIFU_CFG_JSON_MAX - 1)) as Hn.
  pose proof (strnlen_le_length (json cfg) (Z.to_nat LIFU_CFG_JSON_MAX - 1))
    as Hn'.
  rewrite !normalize_json_eq. cbn [json set_json].
  split; [rewrite E; reflexivity|]. split; [lia|]. split.
  - rewrite E.
    set (cap := Z.to_nat LIFU_CFG_JSON_MAX) in *.
    set (n := strnlen (json cfg) (cap - 1)) in *.
    rewrite nth_error_app2 by (rewrite length_firstn; lia).
    rewrite length_firstn.
    replace (Nat.min n (length (json cfg))) with n by lia.
    rewrite nth_error_repeat by lia. reflexivity.
  - rewrite normalized_idempotent by exact Hlen. reflexivity.
Qed.

Lemma lifu_cfg_normalize_json_spec_witness :
  length (json stale_candidate) = Z.to_nat LIFU_CFG_JSON_MAX
  /\ json (lifu_cfg_normalize_json stale_candidate) = payload [65].
Proof.
  assert (H : length (json stale_candidate) = Z.to_nat LIFU_CFG_JSON_MAX)
    by (vm_compute; reflexivity).
  split; [exact H|].
  destruct (lifu_cfg_normalize_json_spec stale_candidate H) as [E _].
  rewrite E. vm_compute. reflexivity.
Defined.

(** X13: whatever the destination held, [lifu_cfg_make_defaults] leaves
    the same record: expected magic and version, [seq] 0, an all-zero
    payload and a matching [crc]; [lifu_cfg_is_valid] accepts it. *)
Theorem lifu_cfg_make_defaults_valid (dst : lifu_cfg_t) :
  let d := lifu_cfg_make_defaults dst in
  d = lifu_cfg_make_defaults cfg_zero
  /\ magic d = LIFU_MAGIC /\ version d = LIFU_VER /\ seq d = 0
  /\ json d = repeat 0 (Z.to_nat LIFU_CFG_JSON_MAX)
  /\ crc d = lifu_cfg_calc_crc d
  /\ lifu_cfg_is_valid d = true.
Proof.
  cbv zeta. rewrite !make_defaults_eq.
  split; [reflexivity|]. split; [reflexivity|]. split; [reflexivity|].
  split; [reflexivity|]. split; [reflexivity|].
  split; vm_compute; reflexivity.
Qed.

(** X14: whatever the cache and the flash held and whatever the HAL
    reports, [lifu_cfg_factory_reset] leaves the store loaded with the
    defaults as write-back leaves them ([seq] 1, empty payload), and a
    following [lifu_cfg_get] returns that record. *)
Theorem lifu_cfg_factory_reset_cache (w : world) :
  let w' := snd (lifu_cfg_factory_reset w) in
  g_cfg w' = recovered_cfg
  /\ g_cfg_loaded w' = true
  /\ lifu_cfg_is_valid (g_cfg w') = true
  /\ lifu_cfg_get w' = (recovered_cfg, w').
Proof.
  cbv zeta.
  assert (Hg : g_cfg (snd (lifu_cfg_factory_reset w)) = recovered_cfg).
  { unfold lifu_cfg_factory_reset. cbv zeta.
    rewrite writeback_cfg, make_defaults_eq. apply written_default_cfg. }
  assert (Hl : g_cfg_loaded (snd (lifu_cfg_factory_reset w)) = true).
  { unfold lifu_cfg_factory_reset. cbv zeta. rewrite writeback_loaded.
    apply ensure_loaded_loaded. }
  split; [exact Hg|]. split; [exact Hl|].
  split; [rewrite Hg; exact recovered_cfg_valid|].
  unfold lifu_cfg_get. rewrite (ensure_loaded_when_loaded _ Hl), Hg.
  reflexivity.
Qed.

Lemma get_valid_page (w : world) :
  g_cfg_loaded w = false ->
  lifu_cfg_is_valid (g_cfg (lifu_cfg_load_raw w)) = true ->
  lifu_cfg_get w
  = (g_cfg (lifu_cfg_load_raw w),
     mkWorld (g_cfg (lifu_cfg_load_raw w)) true
             (log (EvRead LIFU_CFG_PAGE_ADDR 512) (hw w))).
Proof.
  intros Hld Hv. unfold lifu_cfg_get, lifu_cfg_ensure_loaded.
  rewrite Hld. cbv zeta. rewrite Hv. reflexivity.
Qed.

(** X15: when the page read on first access is valid, [lifu_cfg_get]
    returns it as loaded and never rewrites it: the only flash operation is
    the one read of 512 bytes, and flash contents and pending HAL statuses
    are as before. *)
Theorem lifu_cfg_get_valid_page (w : world) :
  g_cfg_loaded w = false ->
  lifu_cfg_is_valid (g_cfg (lifu_cfg_load_raw w)) = true ->
  lifu_cfg_get w
  = (g_cfg (lifu_cfg_load_raw w),
     mkWorld (g_cfg (lifu_cfg_load_raw w)) true
             (log (EvRead LIFU_CFG_PAGE_ADDR 512) (hw w))).
Proof. exact (get_valid_page w). Qed.

(** ** Persistence across a restart *)

Lemma skipn_repeat (v : Z) (k m : nat) :
  skipn k (repeat v m) = repeat v (m - k).
Proof.
  revert m; induction k as [|k IH]; intros [|m]; cbn [skipn repeat Nat.sub];
    try reflexivity.
  apply IH.
Qed.

Lemma of_le_le16 (x : Z) : 0 <= x < 2 ^ 16 -> of_le (le16 x) = x.
Proof.
  intros Hx. unfold le16, byte_of. cbn [of_le].
  change (2 ^ (8 * 0)) with 1. change (2 ^ (8 * 1)) with 256.
  rewrite Z.div_1_r.
  pose proof (Z.div_mod x 256 ltac:(lia)) as H1.
  assert (H2 : 0 <= x / 256 < 256)
    by (split; [apply Z.div_pos; lia | apply Z.div_lt_upper_bound; lia]).
  rewrite (Z.mod_small (x / 256)) by lia. lia.
Qed.

Lemma of_le_le32 (x : Z) : 0 <= x < 2 ^ 32 -> of_le (le32 x) = x.
Proof.
  intros Hx. unfold le32, byte_of. cbn [of_le].
  change (2 ^ (8 * 0)) with 1. change (2 ^ (8 * 1)) with 256.
  change (2 ^ (8 * 2)) with (256 * 256).
  change (2 ^ (8 * 3)) with (256 * (256 * 256)).
  rewrite Z.div_1_r, <- !Z.div_div by lia.
  set (q1 := x / 256). set (q2 := q1 / 256). set (q3 := q2 / 256).
  pose proof (Z.div_mod x 256 ltac:(lia)) as H1. fold q1 in H1.
  pose proof (Z.div_mod q1 256 ltac:(lia)) as H2. fold q2 in H2.
  pose proof (Z.div_mod q2 256 ltac:(lia)) as H3. fold q3 in H3.
  pose proof (Z.mod_pos_bound x 256 ltac:(lia)) as B0.
  pose proof (Z.mod_pos_bound q1 256 ltac:(lia)) as B1.
  pose proof (Z.mod_pos_bound q2 256 ltac:(lia)) as B2.
  assert (B3 : 0 <= q3 < 256) by lia.
  rewrite (Z.mod_small q3) by lia. lia.
Qed.

(** Reading the image of a record back over an object gives the record's
    laid-out fields again. *)
Lemma cfg_of_bytes_cfg_bytes (g old : lifu_cfg_t) :
  0 <= magic g < 2 ^ 32 -> 0 <= version g < 2 ^ 32 ->
  0 <= seq g < 2 ^ 32 -> 0 <= crc g < 2 ^ 16 ->
  0 <= reserved g < 2 ^ 16 ->
  cfg_of_bytes (cfg_bytes g) old
  = mkCfg (magic g) (version g) (seq g) (crc g) (reserved g)
          (hv_settng old) (hv_enabled old) (auto_on old) (json g).
Proof.
  intros Hm Hv Hs Hc Hr. unfold cfg_of_bytes.
  change (firstn 4 (cfg_bytes g)) with (le32 (magic g)).
  change (firstn 4 (skipn 4 (cfg_bytes g))) with (le32 (version g)).
  change (firstn 4 (skipn 8 (cfg_bytes g))) with (le32 (seq g)).
  change (firstn 2 (skipn 12 (cfg_bytes g))) with (le16 (crc g)).
  change (firstn 2 (skipn 14 (cfg_bytes g))) with (le16 (reserved g)).
  change (skipn 16 (cfg_bytes g)) with (json g).
  rewrite !of_le_le32, !of_le_le16 by assumption. reflexivity.
Qed.

Lemma cfg_bytes_are_bytes (g : lifu_cfg_t) :
  Forall is_byte (json g) -> Forall is_byte (cfg_bytes g).
Proof.
  intros Hj. unfold cfg_bytes, le32, le16.
  repeat (apply Forall_cons; [apply byte_of_is_byte|]). exact Hj.
Qed.

Lemma zero_image_tail :
  skipn 512 (cfg_bytes cfg_zero) = repeat 0 1536.
Proof. vm_compute. reflexivity. Qed.

(** A restart on a page that holds the first 512 bytes of the image of a
    valid record whose remaining bytes are zero loads that record and
    writes nothing. *)
Lemma cold_start_reads_back (h : hw_t) (g : lifu_cfg_t) :
  map (flash h) (addresses LIFU_CFG_PAGE_ADDR 512)
  = firstn 512 (cfg_bytes g) ->
  skipn 512 (cfg_bytes g) = repeat 0 1536 ->
  0 <= magic g < 2 ^ 32 -> 0 <= version g < 2 ^ 32 ->
  0 <= seq g < 2 ^ 32 -> 0 <= crc g < 2 ^ 16 ->
  0 <= reserved g < 2 ^ 16 ->
  lifu_cfg_is_valid g = true ->
  lifu_cfg_get (boot h)
  = (reloaded g,
     mkWorld (reloaded g) true (log (EvRead LIFU_CFG_PAGE_ADDR 512) h)).
Proof.
  intros Hread Htail Hm Hv Hs Hc Hr Hval.
  assert (Hload : g_cfg (lifu_cfg_load_raw (boot h)) = reloaded g).
  { unfold lifu_cfg_load_raw, Flash_Read, boot. cbn [g_cfg hw].
    rewrite words_nat, Hread. unfold memcpy.
    rewrite firstn_firstn, Nat.min_id, zero_image_tail, <- Htail, firstn_skipn.
    apply cfg_of_bytes_cfg_bytes; assumption. }
  assert (Hval' : lifu_cfg_is_valid (reloaded g) = true).
  { apply is_valid_iff in Hval. apply is_valid_iff.
    rewrite calc_crc_header in *. exact Hval. }
  pose proof (get_valid_page (boot h) eq_refl) as Hg.
  rewrite Hload in Hg. exact (Hg Hval').
Qed.

Lemma lifu_cfg_get_valid_page_witness :
  let w := boot (hw (snd (lifu_cfg_get (boot hw_blank)))) in
  g_cfg_loaded w = false
  /\ lifu_cfg_is_valid (g_cfg (lifu_cfg_load_raw w)) = true
  /\ fst (lifu_cfg_get w) = recovered_cfg
  /\ filter is_program (trace (hw (snd (lifu_cfg_get w))))
     = filter is_program (trace (hw w)).
Proof.
  cbv zeta.
  assert (Hv : lifu_cfg_is_valid
                 (g_cfg (lifu_cfg_load_raw
                           (boot (hw (snd (lifu_cfg_get (boot hw_blank)))))))
               = true) by (vm_compute; reflexivity).
  split; [reflexivity|]. split; [exact Hv|].
  rewrite (lifu_cfg_get_valid_page
             (boot (hw (snd (lifu_cfg_get (boot hw_blank))))) eq_refl Hv).
  cbn [fst snd hw].
  split; vm_compute; reflexivity.
Defined.

Lemma Forall_firstn_all (P : Z -> Prop) (l : list Z) (n : nat) :
  Forall P l -> Forall P (firstn n l).
Proof.
  intros H. revert n. induction H as [|x l Hx Hl IH]; intros [|n];
    cbn [firstn]; constructor; auto.
Qed.

Lemma store_bytes (l : list Z) (i : nat) (v : Z) :
  Forall is_byte l -> is_byte v -> Forall is_byte (store l i v).
Proof.
  intros H Hv. revert i. induction H as [|x l Hx Hl IH]; intros [|i];
    cbn [store]; constructor; auto.
Qed.

Lemma strnlen_store_end (l : list Z) (m : nat) :
  strnlen (store l m 0) m = strnlen l m.
Proof.
  revert l. induction m as [|m IH]; intros [|c l]; try reflexivity.
  cbn [store]. change (strnlen (c :: store l m 0) (S m))
    with (if c =? 0 then O else S (strnlen (store l m 0) m)).
  change (strnlen (c :: l) (S m))
    with (if c =? 0 then O else S (strnlen l m)).
  rewrite IH. reflexivity.
Qed.

Lemma writeback_unfold (w : world) :
  lifu_cfg_writeback w
  = let g := written (g_cfg w) in
    let (st, hw1) := Flash_Erase LIFU_CFG_PAGE_ADDR LIFU_CFG_PAGE_END (hw w) in
    if negb (status_eqb st HAL_OK) then (st, mkWorld g (g_cfg_loaded w) hw1)
    else
      let (st', hw2) := Flash_Write LIFU_CFG_PAGE_ADDR (cfg_bytes g) 512 hw1 in
      (st', mkWorld g (g_cfg_loaded w) hw2).
Proof. reflexivity. Qed.

(** A write-back with no HAL failure, of a record whose payload text is at
    most 496 bytes long, returns [HAL_OK], and a restart on the flash it
    leaves loads the written record without writing again. *)
Lemma writeback_persists (w : world) :
  no_failure (hw w) ->
  magic (g_cfg w) = LIFU_MAGIC -> version (g_cfg w) = LIFU_VER ->
  0 <= reserved (g_cfg w) < 2 ^ 16 ->
  length (json (g_cfg w)) = Z.to_nat LIFU_CFG_JSON_MAX ->
  Forall is_byte (json (g_cfg w)) ->
  (strnlen (json (g_cfg w)) (Z.to_nat LIFU_CFG_JSON_MAX - 1) <= 496)%nat ->
  let r := lifu_cfg_writeback w in
  fst r = HAL_OK
  /\ g_cfg (snd r) = written (g_cfg w)
  /\ lifu_cfg_get (boot (hw (snd r)))
     = (reloaded (written (g_cfg w)),
        mkWorld (reloaded (written (g_cfg w))) true
                (log (EvRead LIFU_CFG_PAGE_ADDR 512) (hw (snd r)))).
Proof.
  intros Hok Hm Hv Hr Hlen Hb Hn. cbv zeta.
  set (g := g_cfg w) in *. set (g' := written g).
  pose proof (written_eq g) as Eg. fold g' in Eg.
  pose proof (normalized_spec (json g) Hlen) as Ej. cbv zeta in Ej.
  assert (Hj' : json g' = normalized (json g)) by (rewrite Eg; reflexivity).
  assert (Hlen' : length (json g') = Z.to_nat LIFU_CFG_JSON_MAX)
    by (apply written_length; exact Hlen).
  assert (Hb' : Forall is_byte (json g')).
  { rewrite Hj', Ej. apply Forall_app. split.
    - apply Forall_firstn_all, Hb.
    - apply Forall_forall. intros x Hx. apply repeat_spec in Hx. subst x.
      unfold is_byte. lia. }
  (* the erase *)
  destruct (Flash_Erase_ok LIFU_CFG_PAGE_ADDR LIFU_CFG_PAGE_END (hw w))
    as (He1 & He2 & _ & _ & He5);
    [vm_compute; discriminate | reflexivity | vm_compute; discriminate
     | exact Hok |].
  rewrite writeback_unfold. cbv zeta. fold g g'.
  destruct (Flash_Erase LIFU_CFG_PAGE_ADDR LIFU_CFG_PAGE_END (hw w))
    as [st1 h1]. cbn [fst snd] in He1, He2, He5. subst st1.
  cbn [status_eqb negb].
  (* the program *)
  destruct (Flash_Write_read_ok LIFU_CFG_PAGE_ADDR (cfg_bytes g') 512 h1)
    as (Hw1 & Hw2 & _).
  { reflexivity. }
  { vm_compute. discriminate. }
  { reflexivity. }
  { lia. }
  { rewrite cfg_bytes_length, Hlen', json_max_nat. lia. }
  { apply Forall_firstn_all, cfg_bytes_are_bytes, Hb'. }
  { exact He5. }
  { intros a Ha. apply He2. change (round_up8 512) with 512 in Ha.
    unfold LIFU_CFG_PAGE_ADDR, LIFU_CFG_PAGE_END, ADDR_FLASH_PAGE_127,
      ADDR_FLASH_END_ADDRESS in *. lia. }
  destruct (Flash_Write LIFU_CFG_PAGE_ADDR (cfg_bytes g') 512 h1) as [st2 h2].
  cbn [fst snd] in *. subst st2.
  split; [reflexivity|]. split; [reflexivity|].
  apply cold_start_reads_back.
  - transitivity (snd (fst (Flash_Read LIFU_CFG_PAGE_ADDR 512 h2)));
      [reflexivity | rewrite Hw2; reflexivity].
  - change (skipn 512 (cfg_bytes g')) with (skipn 496 (json g')).
    rewrite Hj', Ej, skipn_app, length_firstn.
    pose proof (strnlen_le_length (json g)
                  (Z.to_nat LIFU_CFG_JSON_MAX - 1)) as Hle.
    rewrite skipn_all2 by (rewrite length_firstn; lia).
    rewrite skipn_repeat. cbn [app]. f_equal.
    rewrite json_max_nat in *. lia.
  - rewrite Eg. cbn [magic]. rewrite Hm. vm_compute.
    split; [discriminate | reflexivity].
  - rewrite Eg. cbn [version]. rewrite Hv. vm_compute.
    split; [discriminate | reflexivity].
  - rewrite Eg. cbn [seq]. unfold u32. apply Z.mod_pos_bound. lia.
  - rewrite Eg. cbn [crc]. apply crc16_fold_range. lia.
  - rewrite Eg. cbn [reserved]. exact Hr.
  - apply written_valid; assumption.
Qed.

(** X16: on a loaded store and with no HAL failure, a [lifu_cfg_save] of a
    candidate whose payload text is at most 496 bytes long returns
    [HAL_OK], and after a restart on the flash it leaves the first
    [lifu_cfg_get] returns a record with the same 2048-byte image as the
    one saved (same magic, version, [seq], [crc] and payload), accepted by
    [lifu_cfg_is_valid], with one flash read and nothing written. *)
Theorem lifu_cfg_save_survives_restart (new_cfg : lifu_cfg_t) (w : world) :
  g_cfg_loaded w = true ->
  no_failure (hw w) ->
  0 <= reserved (g_cfg w) < 2 ^ 16 ->
  length (json (g_cfg w)) = Z.to_nat LIFU_CFG_JSON_MAX ->
  length (json new_cfg) = Z.to_nat LIFU_CFG_JSON_MAX ->
  Forall is_byte (json new_cfg) ->
  (strnlen (json new_cfg) (Z.to_nat LIFU_CFG_JSON_MAX - 1) <= 496)%nat ->
  let r := lifu_cfg_save new_cfg w in
  let r2 := lifu_cfg_get (boot (hw (snd r))) in
  fst r = HAL_OK
  /\ cfg_bytes (fst r2) = cfg_bytes (g_cfg (snd r))
  /\ lifu_cfg_is_valid (fst r2) = true
  /\ hw (snd r2) = log (EvRead LIFU_CFG_PAGE_ADDR 512) (hw (snd r)).
Proof.
  intros Hld Hok Hr Hlen Hc Hb Hn. cbv zeta.
  unfold lifu_cfg_save. cbv zeta.
  rewrite (ensure_loaded_when_loaded w Hld).
  match goal with
  | |- context [lifu_cfg_writeback ?x] => set (wm := x)
  end.
  assert (Hcopy : memcpy (json (g_cfg w)) (json new_cfg)
                         (Z.to_nat LIFU_CFG_JSON_MAX) = json new_cfg).
  { unfold memcpy. rewrite firstn_all2 by lia. rewrite skipn_all2 by lia.
    apply app_nil_r. }
  assert (Hjm : json (g_cfg wm)
                = store (json new_cfg) (Z.to_nat LIFU_CFG_JSON_MAX - 1) 0).
  { unfold wm. cbn [g_cfg json set_json set_auto_on set_hv_enabled
                      set_hv_settng set_version set_magic].
    rewrite Hcopy, json_last_nat. reflexivity. }
  destruct (writeback_persists wm) as (H1 & H2 & H3).
  - exact Hok.
  - reflexivity.
  - reflexivity.
  - exact Hr.
  - rewrite Hjm, store_length. exact Hc.
  - rewrite Hjm. apply store_bytes; [exact Hb | unfold is_byte; lia].
  - rewrite Hjm, strnlen_store_end. exact Hn.
  - rewrite H3, H2. cbn [fst snd hw].
    split; [exact H1|]. split; [reflexivity|]. split; [| reflexivity].
    assert (Hval : lifu_cfg_is_valid (written (g_cfg wm)) = true).
    { apply written_valid; [| reflexivity | reflexivity].
      rewrite Hjm, store_length. exact Hc. }
    apply is_valid_iff in Hval. apply is_valid_iff.
    rewrite calc_crc_header in *. exact Hval.
Qed.

Lemma all_bytes_spec (l : list Z) : all_bytes l = true -> Forall is_byte l.
Proof.
  unfold all_bytes. intros H. apply Forall_forall. intros x Hx.
  rewrite forallb_forall in H. specialize (H x Hx).
  apply andb_true_iff in H. destruct H as [H1 H2].
  apply Z.leb_le in H1. apply Z.ltb_lt in H2. split; assumption.
Qed.

Lemma lifu_cfg_save_survives_restart_witness :
  let w := snd (lifu_cfg_get (boot hw_blank)) in
  let r := lifu_cfg_save stale_candidate w in
  let r2 := lifu_cfg_get (boot (hw (snd r))) in
  g_cfg_loaded w = true
  /\ no_failure (hw w)
  /\ fst r = HAL_OK
  /\ cfg_bytes (fst r2) = cfg_bytes (g_cfg (snd r))
  /\ lifu_cfg_is_valid (fst r2) = true.
Proof.
  cbv zeta.
  assert (Hld : g_cfg_loaded (snd (lifu_cfg_get (boot hw_blank))) = true)
    by (vm_compute; reflexivity).
  assert (Hok : no_failure (hw (snd (lifu_cfg_get (boot hw_blank)))))
    by (vm_compute; constructor).
  split; [exact Hld|]. split; [exact Hok|].
  destruct (lifu_cfg_save_survives_restart stale_candidate
              (snd (lifu_cfg_get (boot hw_blank))) Hld Hok)
    as (H1 & H2 & H3 & _).
  - vm_compute. split; [discriminate | reflexivity].
  - vm_compute. reflexivity.
  - vm_compute. reflexivity.
  - apply all_bytes_spec. vm_compute. reflexivity.
  - apply Nat.leb_le. vm_compute. reflexivity.
  - split; [exact H1|]. split; [exact H2 | exact H3].
Defined.

(** X17: on a loaded store whose cached record has the expected magic and
    version and a payload text of at most 496 bytes, and with no HAL
    failure, [lifu_cfg_commit] returns [HAL_OK] and a restart on the flash
    it leaves loads a record with the same 2048-byte image as the cache,
    without writing. *)
Theorem lifu_cfg_commit_survives_restart (w : world) :
  g_cfg_loaded w = true ->
  no_failure (hw w) ->
  magic (g_cfg w) = LIFU_MAGIC -> version (g_cfg w) = LIFU_VER ->
  0 <= reserved (g_cfg w) < 2 ^ 16 ->
  length (json (g_cfg w)) = Z.to_nat LIFU_CFG_JSON_MAX ->
  Forall is_byte (json (g_cfg w)) ->
  (strnlen (json (g_cfg w)) (Z.to_nat LIFU_CFG_JSON_MAX - 1) <= 496)%nat ->
  let r := lifu_cfg_commit w in
  let r2 := lifu_cfg_get (boot (hw (snd r))) in
  fst r = HAL_OK
  /\ seq (g_cfg (snd r)) = u32 (seq (g_cfg w) + 1)
  /\ cfg_bytes (fst r2) = cfg_bytes (g_cfg (snd r))
  /\ hw (snd r2) = log (EvRead LIFU_CFG_PAGE_ADDR 512) (hw (snd r)).
Proof.
  intros Hld Hok Hm Hv Hr Hlen Hb Hn. cbv zeta.
  unfold lifu_cfg_commit. cbv zeta.
  rewrite (ensure_loaded_when_loaded w Hld).
  destruct (writeback_persists w Hok Hm Hv Hr Hlen Hb Hn) as (H1 & H2 & H3).
  rewrite H3, H2. cbn [fst snd hw].
  split; [exact H1|]. split; [rewrite written_eq; reflexivity|].
  split; reflexivity.
Qed.

Lemma lifu_cfg_commit_survives_restart_witness :
  let w := snd (lifu_cfg_save stale_candidate (boot hw_blank)) in
  let r := lifu_cfg_commit w in
  let r2 := lifu_cfg_get (boot (hw (snd r))) in
  g_cfg_loaded w = true
  /\ fst r = HAL_OK
  /\ seq (g_cfg (snd r)) = 3
  /\ cfg_bytes (fst r2) = cfg_bytes (g_cfg (snd r)).
Proof.
  cbv zeta.
  assert (Hld : g_cfg_loaded
                  (snd (lifu_cfg_save stale_candidate (boot hw_blank))) = true)
    by (vm_compute; reflexivity).
  split; [exact Hld|].
  destruct (lifu_cfg_commit_survives_restart
              (snd (lifu_cfg_save stale_candidate (boot hw_blank))) Hld)
    as (H1 & H2 & H3 & _).
  - vm_compute. constructor.
  - vm_compute. reflexivity.
  - vm_compute. reflexivity.
  - vm_compute. split; [discriminate | reflexivity].
  - vm_compute. reflexivity.
  - apply all_bytes_spec. vm_compute. reflexivity.
  - apply Nat.leb_le. vm_compute. reflexivity.
  - split; [exact H1|]. split; [rewrite H2; vm_compute; reflexivity | exact H3].
Defined.

(** X18: on a loaded store, when the unlock or the page erase of a
    write-back reports a failure, [lifu_cfg_commit] returns that status
    without issuing any program; the cached record has nevertheless had
    its [seq] incremented, and it is what a following [lifu_cfg_get]
    returns, without touching flash. *)
Theorem lifu_cfg_commit_failure
  (w : world) (s : HAL_StatusTypeDef) (rest : list HAL_StatusTypeDef) :
  g_cfg_loaded w = true ->
  s <> HAL_OK ->
  script (hw w) = s :: rest \/ script (hw w) = HAL_OK :: s :: rest ->
  let r := lifu_cfg_commit w in
  fst r = s
  /\ filter is_program (trace (hw (snd r)))
     = filter is_program (trace (hw w))
  /\ script (hw (snd r)) = rest
  /\ seq (g_cfg (snd r)) = u32 (seq (g_cfg w) + 1)
  /\ lifu_cfg_get (snd r) = (g_cfg (snd r), snd r).
Proof.
  intros Hld Hs Hscript. cbv zeta.
  unfold lifu_cfg_commit. cbv zeta.
  rewrite (ensure_loaded_when_loaded w Hld).
  assert (Hg : lifu_cfg_get (snd (lifu_cfg_writeback w))
               = (g_cfg (snd (lifu_cfg_writeback w)),
                  snd (lifu_cfg_writeback w))).
  { unfold lifu_cfg_get. rewrite ensure_loaded_when_loaded; [reflexivity|].
    rewrite writeback_loaded. exact Hld. }
  assert (Hseq : seq (g_cfg (snd (lifu_cfg_writeback w)))
                 = u32 (seq (g_cfg w) + 1))
    by (rewrite writeback_cfg, written_eq; reflexivity).
  split; [| split; [| split; [| split; [exact Hseq | exact Hg]]]];
    clear Hg Hseq; rewrite writeback_unfold; cbv zeta;
    destruct (Flash_Erase_paths LIFU_CFG_PAGE_ADDR LIFU_CFG_PAGE_END (hw w)
                eq_refl) as [P1 P2];
    (destruct Hscript as [E | E];
     [ rewrite (P1 s rest E Hs);
       destruct s; try contradiction; reflexivity
     | specialize (P2 s rest E); cbv zeta in P2;
       destruct P2 as (Q1 & Q2 & page & n & Q3);
       destruct (Flash_Erase LIFU_CFG_PAGE_ADDR LIFU_CFG_PAGE_END (hw w))
         as [st1 h1]; cbn [fst snd] in Q1, Q2, Q3; subst st1;
       destruct s; try contradiction; cbn [status_eqb negb fst snd hw];
       first [reflexivity | exact Q2 | rewrite Q3; reflexivity] ]).
Qed.

Lemma lifu_cfg_commit_failure_witness :
  let w0 := snd (lifu_cfg_get (boot hw_blank)) in
  let w := mkWorld (g_cfg w0) true
             (mkHw (flash (hw w0)) [HAL_OK; HAL_TIMEOUT] []) in
  let r := lifu_cfg_commit w in
  g_cfg_loaded w = true
  /\ fst r = HAL_TIMEOUT
  /\ seq (g_cfg (snd r)) = 2
  /\ filter is_program (trace (hw (snd r))) = [].
Proof.
  cbv zeta. split; [reflexivity|].
  destruct (lifu_cfg_commit_failure
              (mkWorld (g_cfg (snd (lifu_cfg_get (boot hw_blank)))) true
                 (mkHw (flash (hw (snd (lifu_cfg_get (boot hw_blank)))))
                       [HAL_OK; HAL_TIMEOUT] []))
              HAL_TIMEOUT [] eq_refl)
    as (H1 & H2 & _ & H4 & _).
  - discriminate.
  - right. reflexivity.
  - split; [exact H1|]. split; [rewrite H4; vm_compute; reflexivity|].
    rewrite H2. reflexivity.
Defined.

(* ------------------------------------------------------------------ *)
(** * The checksum of a sequence followed by its checksum *)

Lemma all_from_spec (P : Z -> bool) (n : nat) :
  forall c, all_from P n c = true ->
  forall x, c <= x < c + Z.of_nat n -> P x = true.
Proof.
  induction n as [|n IH]; intros c H x Hx; [lia|].
  cbn [all_from] in H. apply andb_true_iff in H. destruct H as [H1 H2].
  destruct (Z.eq_dec x c) as [-> | Hne].
  - exact H1.
  - apply (IH (c + 1)); [exact H2 | lia].
Qed.

Lemma residue_all_states :
  all_from (residue_ok crc16_byte) (Z.to_nat (2 ^ 16)) 0 = true.
Proof. vm_compute. reflexivity. Qed.

Lemma residue_state (f : Z -> Z -> Z) (bound c : Z) :
  all_from (residue_ok f) (Z.to_nat bound) 0 = true ->
  0 <= c < bound ->
  f (f c (c / 256)) (c mod 256) = 0.
Proof.
  intros Hall Hc.
  pose proof (all_from_spec (residue_ok f) (Z.to_nat bound) 0 Hall c
                ltac:(lia)) as H.
  unfold residue_ok in H. apply Z.eqb_eq. exact H.
Qed.

(** X9: for every byte sequence, the checksum of the sequence followed by
    its own checksum, high byte first, is 0: a receiver can check a
    protected block by running [crc16_ccitt] over block and checksum
    together. *)
Theorem crc16_ccitt_residue (data : list Z) :
  let c := crc16_ccitt data in
  crc16_ccitt (data ++ [c / 256; c mod 256]) = 0.
Proof.
  cbv zeta. unfold crc16_ccitt. rewrite fold_left_app.
  pose proof (crc16_fold_range data 0xFFFF ltac:(lia)) as H.
  set (s := fold_left crc16_byte data 0xFFFF) in *.
  exact (residue_state crc16_byte (2 ^ 16) s residue_all_states H).
Qed.

(* ------------------------------------------------------------------ *)
(** * [lifu_cfg_snapshot] *)

(** C9: [lifu_cfg_snapshot] reports [HAL_ERROR] exactly for a null
    destination, and then touches nothing.  For any other destination it
    reports [HAL_OK], the store is loaded on return, and the destination
    holds the whole cached record as it is on return.  That record is the
    cache as it was when the store was already loaded (nothing else
    happens then), the record read from the page when the store was not
    loaded and the page is valid (after the one flash read), and the
    defaults as write-back leaves them when the page is not valid; in all
    three cases it passes [lifu_cfg_is_valid] when the cache was valid or
    not yet loaded at the call. *)
Theorem lifu_cfg_snapshot_spec (out : option lifu_cfg_t) (w : world) :
  (fst (fst (lifu_cfg_snapshot out w)) = HAL_ERROR <-> out = None)
  /\ lifu_cfg_snapshot None w = (HAL_ERROR, None, w)
  /\ (forall o,
        let r := lifu_cfg_snapshot (Some o) w in
        fst (fst r) = HAL_OK
        /\ g_cfg_loaded (snd r) = true
        /\ snd (fst r) = Some (g_cfg (snd r))
        /\ (g_cfg_loaded w = true -> snd r = w)
        /\ (g_cfg_loaded w = false ->
            lifu_cfg_is_valid (g_cfg (lifu_cfg_load_raw w)) = true ->
            g_cfg (snd r) = g_cfg (lifu_cfg_load_raw w)
            /\ hw (snd r) = log (EvRead LIFU_CFG_PAGE_ADDR 512) (hw w))
        /\ (g_cfg_loaded w = false ->
            lifu_cfg_is_valid (g_cfg (lifu_cfg_load_raw w)) = false ->
            g_cfg (snd r) = recovered_cfg)
        /\ (cache_ok w -> lifu_cfg_is_valid (g_cfg (snd r)) = true)).
Proof.
  split; [destruct out; cbn [lifu_cfg_snapshot fst]; split; congruence|].
  split; [reflexivity|].
  intros o. cbv zeta. cbn [lifu_cfg_snapshot fst snd].
  split; [reflexivity|].
  split; [apply ensure_loaded_loaded|].
  split; [reflexivity|].
  split; [apply ensure_loaded_when_loaded|].
  split; [| split].
  - intros Hld Hv. pose proof (get_valid_page w Hld Hv) as Hg.
    unfold lifu_cfg_get in Hg. apply (f_equal snd) in Hg. cbn [snd] in Hg.
    rewrite Hg. split; reflexivity.
  - intros Hld Hv. rewrite (ensure_loaded_invalid w Hld Hv). cbv zeta.
    cbn [g_cfg]. rewrite writeback_cfg. apply written_default_cfg.
  - intros Hok. apply ensure_loaded_valid, Hok.
Qed.

(* ------------------------------------------------------------------ *)
(** * Validity of the cache after a public call *)

Lemma ensure_loaded_length (w : world) :
  length (json (g_cfg w)) = Z.to_nat LIFU_CFG_JSON_MAX ->
  length (json (g_cfg (lifu_cfg_ensure_loaded w)))
  = Z.to_nat LIFU_CFG_JSON_MAX.
Proof.
  intros Hlen. unfold lifu_cfg_ensure_loaded.
  destruct (g_cfg_loaded w); [exact Hlen|]. cbv zeta.
  destruct (lifu_cfg_is_valid (g_cfg (lifu_cfg_load_raw w)));
    cbn [negb g_cfg].
  - apply load_raw_length, Hlen.
  - rewrite writeback_cfg, make_defaults_eq. cbn [g_cfg].
    apply written_length, default_cfg_fields.
Qed.

Lemma save_valid (c : lifu_cfg_t) (w : world) :
  length (json (g_cfg w)) = Z.to_nat LIFU_CFG_JSON_MAX ->
  length (json c) = Z.to_nat LIFU_CFG_JSON_MAX ->
  lifu_cfg_is_valid (g_cfg (snd (lifu_cfg_save c w))) = true.
Proof.
  intros Hlen Hc. rewrite save_cfg. cbv zeta.
  apply written_valid; [| reflexivity | reflexivity]. cbn [json].
  apply save_merge_length; [apply ensure_loaded_length, Hlen | exact Hc].
Qed.

Lemma factory_reset_valid (w : world) :
  lifu_cfg_is_valid (g_cfg (snd (lifu_cfg_factory_reset w))) = true.
Proof.
  unfold lifu_cfg_factory_reset. cbv zeta.
  rewrite writeback_cfg, make_defaults_eq. cbn [g_cfg].
  rewrite written_default_cfg. exact recovered_cfg_valid.
Qed.

(** On a loaded store [lifu_cfg_commit] restores the NUL and the checksum
    of the cache but keeps its [magic] and [version]. *)
Lemma commit_valid_iff (w : world) :
  g_cfg_loaded w = true ->
  length (json (g_cfg w)) = Z.to_nat LIFU_CFG_JSON_MAX ->
  (lifu_cfg_is_valid (g_cfg (snd (lifu_cfg_commit w))) = true
   <-> magic (g_cfg w) = LIFU_MAGIC /\ version (g_cfg w) = LIFU_VER).
Proof.
  intros Hld Hlen. unfold lifu_cfg_commit. cbv zeta.
  rewrite (ensure_loaded_when_loaded w Hld), writeback_cfg. split.
  - intros Hv. apply is_valid_iff in Hv. destruct Hv as (Hm & Hv & _).
    rewrite written_eq in Hm, Hv. cbn [magic version] in Hm, Hv.
    split; assumption.
  - intros [Hm Hv]. apply written_valid; assumption.
Qed.

(** C10 (as the code has it): whatever the flash erase and program steps
    report, [lifu_cfg_save] and [lifu_cfg_factory_reset] return with a
    cached record that passes [lifu_cfg_is_valid], whatever the cache held
    before.  [lifu_cfg_get], [lifu_cfg_snapshot] with a destination and
    [lifu_cfg_commit] return with a valid cache whenever the cache was not
    yet loaded or was valid at the call, hence after any sequence of public
    calls from reset; they do not repair a loaded cache that was changed
    in place: [lifu_cfg_get] leaves it as it is, and [lifu_cfg_commit]
    restores the NUL and the checksum but keeps [magic] and [version], so
    its result is valid exactly when those two were.  [lifu_cfg_snapshot]
    with a null destination returns before the lazy load and changes
    nothing. *)
Theorem cache_validity_after_call (w : world) :
  length (json (g_cfg w)) = Z.to_nat LIFU_CFG_JSON_MAX ->
  (forall c, length (json c) = Z.to_nat LIFU_CFG_JSON_MAX ->
     lifu_cfg_is_valid (g_cfg (snd (lifu_cfg_save c w))) = true)
  /\ lifu_cfg_is_valid (g_cfg (snd (lifu_cfg_factory_reset w))) = true
  /\ ((g_cfg_loaded w = true -> lifu_cfg_is_valid (g_cfg w) = true) ->
      lifu_cfg_is_valid (g_cfg (snd (lifu_cfg_get w))) = true
      /\ (forall o, lifu_cfg_is_valid
                      (g_cfg (snd (lifu_cfg_snapshot (Some o) w))) = true)
      /\ lifu_cfg_is_valid (g_cfg (snd (lifu_cfg_commit w))) = true)
  /\ (g_cfg_loaded w = true ->
      g_cfg (snd (lifu_cfg_get w)) = g_cfg w
      /\ (lifu_cfg_is_valid (g_cfg (snd (lifu_cfg_commit w))) = true
          <-> magic (g_cfg w) = LIFU_MAGIC /\ version (g_cfg w) = LIFU_VER))
  /\ lifu_cfg_snapshot None w = (HAL_ERROR, None, w)
  /\ (forall h ops op,
        Forall op_wf ops -> op_wf op -> loads op = true ->
        lifu_cfg_is_valid (g_cfg (run_op op (run_ops ops (boot h)))) = true).
Proof.
  intros Hlen.
  split; [intros c Hc; apply save_valid; assumption|].
  split; [apply factory_reset_valid|].
  split; [| split; [| split; [reflexivity|]]].
  - intros Hinv.
    assert (Hok : cache_ok w) by (split; assumption).
    split; [| split].
    + exact (proj2 (proj2 (run_op_loaded_valid OpGet w Hok I eq_refl))).
    + intros o.
      exact (proj2 (proj2 (run_op_loaded_valid (OpSnapshot (Some o)) w Hok
                             I eq_refl))).
    + exact (proj2 (proj2 (run_op_loaded_valid OpCommit w Hok I eq_refl))).
  - intros Hld. split; [| apply commit_valid_iff; assumption].
    unfold lifu_cfg_get. cbn [snd].
    rewrite (ensure_loaded_when_loaded w Hld). reflexivity.
  - intros h ops op Hall Hop Hl.
    apply (run_op_loaded_valid op); [| exact Hop | exact Hl].
    apply run_ops_ok; [apply boot_ok | exact Hall].
Qed.

Lemma cache_validity_after_call_witness :
  let w := run_ops [OpGet; OpSnapshot None; OpSave stale_candidate]
                   (boot hw_failing) in
  length (json (g_cfg w)) = Z.to_nat LIFU_CFG_JSON_MAX
  /\ fst (lifu_cfg_get (boot hw_failing)) = recovered_cfg
  /\ fst (lifu_cfg_commit w) = HAL_BUSY
  /\ lifu_cfg_is_valid (g_cfg (snd (lifu_cfg_commit w))) = true
  /\ lifu_cfg_is_valid (g_cfg (snd (lifu_cfg_save long_candidate w))) = true.
Proof.
  cbv zeta.
  assert (Hlen : length (json (g_cfg (run_ops
                   [OpGet; OpSnapshot None; OpSave stale_candidate]
                   (boot hw_failing)))) = Z.to_nat LIFU_CFG_JSON_MAX)
    by (vm_compute; reflexivity).
  destruct (cache_validity_after_call
              (run_ops [OpGet; OpSnapshot None; OpSave stale_candidate]
                       (boot hw_failing)) Hlen)
    as (Hsave & _ & Hinv & _).
  split; [exact Hlen|].
  split; [vm_compute; reflexivity|]. split; [vm_compute; reflexivity|].
  split.
  - apply Hinv. intros _. vm_compute. reflexivity.
  - apply Hsave. vm_compute. reflexivity.
Defined.

(** C10, counterexample: two public calls that return with a cached record
    that is not valid.  A snapshot into a null destination, made first
    after reset, leaves the zero-initialised cache.  And when the caller has
    changed [magic] in place through the pointer [lifu_cfg_get] returned
    (the use [lifu_config.h] documents for [lifu_cfg_commit]), both
    [lifu_cfg_commit], which succeeds, and the following [lifu_cfg_get]
    return with that record still invalid. *)
Lemma cache_invalid_after_call :
  fst (fst (lifu_cfg_snapshot None (boot hw_blank))) = HAL_ERROR
  /\ lifu_cfg_is_valid
       (g_cfg (run_op (OpSnapshot None) (boot hw_blank))) = false
  /\ g_cfg_loaded world_edited_magic = true
  /\ fst (lifu_cfg_commit world_edited_magic) = HAL_OK
  /\ lifu_cfg_is_valid (g_cfg (snd (lifu_cfg_commit world_edited_magic)))
     = false
  /\ lifu_cfg_is_valid
       (fst (lifu_cfg_get (snd (lifu_cfg_commit world_edited_magic))))
     = false.
Proof.
  split; [reflexivity|]. split; [vm_compute; reflexivity|].
  split; [vm_compute; reflexivity|]. split; [vm_compute; reflexivity|].
  split; vm_compute; reflexivity.
Qed.
